(** * toyparsing: a monadic parser-combinator library

    A shallow embedding of [toyparsing.py].  A parser is a function from the
    cursor (the remaining input text) to a result; the body of a composite
    parser runs in a small state-and-exception monad whose state is the
    private cursor holder of one [Parser.__call__] invocation. *)

From Stdlib Require Import String Ascii List Arith ZArith Lia Bool.
From Equations Require Import Equations.
Import ListNotations.
Open Scope string_scope.

(** ** Python values and exceptions *)

(** The dynamically typed values that flow through parser bodies. *)
#[warnings="-register-all"]
Inductive value : Type :=
| VNone
| VBool (b : bool)
| VInt (z : Z)
| VStr (s : string)
| VList (l : list value).

(** Exceptions that can leave a parser call.  [ParserFailure] is the
    user-responsible signal; its argument is the message, absent for a bare
    [raise ParserFailure].  The last two stand for the errors Python raises
    on ill-typed operands. *)
Inductive error : Type :=
| ParserFailure (msg : option string)
| TypeError
| AttributeError.

(** What [m(s)] gives to its caller: a pair [(a, s')], [None], or an
    exception that was left uncaptured. *)
Inductive Result : Type :=
| Ok (a : value) (s : string)
| NoResult
| Raise (e : error).

Definition Parser : Type := string -> Result.

(** ** The body monad

    What running a parser body gives: a value together with the final content
    of the cursor holder, the internal [Nothing] exception, or another
    exception. *)
Inductive Outcome (A : Type) : Type :=
| Ret (a : A) (s : string)
| Nothing
| Throw (e : error).
Arguments Ret {A} a s.
Arguments Nothing {A}.
Arguments Throw {A} e.

Definition Body (A : Type) : Type := string -> Outcome A.

Definition ret {A} (a : A) : Body A := fun s => Ret a s.

Definition seq {A B} (m : Body A) (k : A -> Body B) : Body B :=
  fun s =>
    match m s with
    | Ret a s' => k a s'
    | Nothing => Nothing
    | Throw e => Throw e
    end.

Definition throw {A} (e : error) : Body A := fun _ => Throw e.

Declare Scope body_scope.
Delimit Scope body_scope with body.
Notation "x <- m ;; k" := (seq m (fun x => k))
  (at level 61, m at next level, right associativity) : body_scope.
Notation "m ;; k" := (seq m (fun _ => k))
  (at level 61, right associativity) : body_scope.
Open Scope body_scope.

(** [run] as defined inside [Parser.__call__]: the holder is the monad's
    state. *)
Definition run (m : Parser) (nullable throwable : bool) : Body value :=
  fun s =>
    match m s with
    | Ok a s' => Ret a s'
    | NoResult =>
        if nullable then Ret VNone s
        else if throwable then Throw (ParserFailure None)
        else Nothing
    | Raise e => Throw e
    end.

(** [run(m)] with both flags at their defaults. *)
Definition run0 (m : Parser) : Body value := run m false false.

(** [Parser.__call__]: run the body on a holder initialised to [s]; capture
    [Nothing], leave every other exception uncaptured. *)
Definition __call__ (do_f : Body value) : Parser :=
  fun s =>
    match do_f s with
    | Ret a s' => Ok a s'
    | Nothing => NoResult
    | Throw e => Raise e
    end.

Definition parser_do (f : Body value) : Parser := __call__ f.

(** ** Operations on values *)

Definition is_None (v : value) : bool :=
  match v with VNone => true | _ => false end.

(** A value used where the cursor text is expected. *)
Definition cursor_of (v : value) : Body string :=
  match v with VStr s => ret s | _ => throw TypeError end.

Definition py_len (v : value) : Body nat :=
  match v with
  | VStr s => ret (String.length s)
  | VList l => ret (List.length l)
  | _ => throw TypeError
  end.

Definition int_of_bool (b : bool) : Z := if b then 1%Z else 0%Z.

(** [operator.add]. *)
Definition add (x y : value) : Body value :=
  match x, y with
  | VList l1, VList l2 => ret (VList (l1 ++ l2))
  | VStr s1, VStr s2 => ret (VStr (s1 ++ s2))
  | VInt a, VInt b => ret (VInt (a + b))
  | VInt a, VBool b => ret (VInt (a + int_of_bool b))
  | VBool a, VInt b => ret (VInt (int_of_bool a + b))
  | VBool a, VBool b => ret (VInt (int_of_bool a + int_of_bool b))
  | _, _ => throw TypeError
  end.

Fixpoint chars (s : string) : list value :=
  match s with
  | EmptyString => []
  | String c r => VStr (String c EmptyString) :: chars r
  end.

(** Iterating over a value. *)
Definition py_iter (v : value) : Body (list value) :=
  match v with
  | VList l => ret l
  | VStr s => ret (chars s)
  | _ => throw TypeError
  end.

(** [functools.reduce(f, xs, init)]. *)
Fixpoint reduce (f : value -> value -> Body value) (xs : list value)
  (init : value) : Body value :=
  match xs with
  | [] => ret init
  | x :: r => acc <- f init x ;; reduce f r acc
  end.

(** ** Text operations *)

(** [str.isspace] on one character (code points below 256). *)
Definition isspace (c : ascii) : bool :=
  let n := nat_of_ascii c in
  (((9 <=? n) && (n <=? 13)) || ((28 <=? n) && (n <=? 32))
   || (n =? 133) || (n =? 160))%nat.

Fixpoint lstrip (s : string) : string :=
  match s with
  | EmptyString => EmptyString
  | String c r => if isspace c then lstrip r else s
  end.

Fixpoint rstrip (s : string) : string :=
  match s with
  | EmptyString => EmptyString
  | String c r =>
      match rstrip r with
      | EmptyString => if isspace c then EmptyString else String c EmptyString
      | r' => String c r'
      end
  end.

(** [s.strip()]. *)
Definition strip (s : string) : string := rstrip (lstrip s).

Definition py_strip (v : value) : Body string :=
  match v with VStr s => ret (strip s) | _ => throw AttributeError end.

(** [s[:n]] for [0 <= n]. *)
Fixpoint slice_to (n : nat) (s : string) : string :=
  match n, s with
  | S n', String c r => String c (slice_to n' r)
  | _, _ => EmptyString
  end.

(** [s[n:]] for [0 <= n]. *)
Fixpoint slice_from (n : nat) (s : string) : string :=
  match n, s with
  | S n', String _ r => slice_from n' r
  | _, _ => s
  end.

(** ** Composition operators of [Parser] *)

Definition bind (self : Parser) (f : value -> Parser) : Parser :=
  parser_do (a <- run0 self ;; run0 (f a)).

Definition __and__ (self p : Parser) : Parser :=
  parser_do (a <- run0 self ;; b <- run0 p ;; ret (VList [a; b])).

Definition __or__ (self p : Parser) : Parser :=
  parser_do (a <- run self true false ;;
             if negb (is_None a) then ret a else run0 p).

Definition __rshift__ (self p : Parser) : Parser :=
  parser_do (run0 self ;; run0 p).

Definition __lshift__ (self p : Parser) : Parser :=
  parser_do (a <- run0 self ;; run0 p ;; ret a).

Definition __gt__ (self : Parser) (f : value -> value) : Parser :=
  parser_do (a <- run0 self ;; ret (f a)).

Declare Scope parser_scope.
Delimit Scope parser_scope with parser.
Infix "<&>" := __and__ (at level 40, left associativity) : parser_scope.
Infix "<|>" := __or__ (at level 50, left associativity) : parser_scope.
Infix ">>>" := __rshift__ (at level 39, left associativity) : parser_scope.
Infix "<<<" := __lshift__ (at level 39, left associativity) : parser_scope.
Open Scope parser_scope.

(** ** State and failure primitives *)

Definition get : Parser := fun s => Ok (VStr s) s.

Definition put (s : string) : Parser := fun _ => Ok (VStr s) s.

Definition fail : Parser := fun _ => NoResult.

Definition unit (a : value) : Parser := parser_do (ret a).

Definition empty : Parser := unit (VStr "").

(** ** Lexical primitives *)

(** A compiled pattern: [pat.match(s)] gives [m.end()] when there is a match
    at position 0. *)
Definition regex : Type := string -> option nat.

Definition pattern (pat : regex) : Parser :=
  parser_do (
    v <- run0 get ;;
    s <- py_strip v ;;
    match pat s with
    | None => run0 fail
    | Some m_end =>
        run0 (put (slice_from m_end s)) ;;
        ret (VStr (slice_to m_end s))
    end).

Definition word (pstr : string) : Parser :=
  let pos := String.length pstr in
  parser_do (
    v <- run0 get ;;
    s <- py_strip v ;;
    if String.eqb (slice_to pos s) pstr then
      run0 (put (slice_from pos s)) ;; ret (VStr pstr)
    else run0 fail).

(** ** Derived combinators *)

Definition optional (p : Parser) : Parser :=
  parser_do (
    a <- run p true false ;;
    ret (if is_None a then VList [] else VList [a])).

(** The guard [q] of [moreThan0]: [p], failing unless the cursor got
    shorter. *)
Definition moreThan0_q (p : Parser) : Parser :=
  parser_do (
    s <- run0 get ;;
    a <- run0 p ;;
    s2 <- run0 get ;;
    n2 <- py_len s2 ;;
    n <- py_len s ;;
    if (n2 <? n)%nat then ret a else (run0 fail ;; ret VNone)).

Definition inspect {A} (a : A) : {b : A | a = b} := exist _ a eq_refl.

(** The [while True] loop of [p_star], with the list [a] built so far. *)
Equations? p_star_loop (p : Parser) (a : list value) (s : string)
  : Outcome value by wf (String.length s) lt :=
  p_star_loop p a s with inspect (run (moreThan0_q p) true false s) := {
    | exist _ (Ret VNone s') _ := Ret (VList a) s'
    | exist _ (Ret b s') H := p_star_loop p (a ++ [b]) s'
    | exist _ Nothing _ := Nothing
    | exist _ (Throw e) _ := Throw e }.
Proof.
  all: unfold run, moreThan0_q, parser_do, __call__, seq, run0, run, get, fail in H;
    destruct (p s) as [x t| |err]; simpl in H; try discriminate;
    destruct (String.length t <? String.length s)%nat eqn:E; simpl in H;
    try discriminate; injection H as _ ->; apply Nat.ltb_lt; exact E.
Qed.

Definition moreThan0 (p : Parser) : Parser :=
  parser_do (p_star_loop p []).

Definition moreThan1 (p : Parser) : Parser :=
  parser_do (
    a <- run0 p ;;
    r <- run0 (moreThan0 p) ;;
    add (VList [a]) r).

Definition sepBy (p sep : Parser) : Parser :=
  parser_do (
    a <- run0 p ;;
    v <- run0 (moreThan0 (sep <&> p)) ;;
    xs <- py_iter v ;;
    r <- reduce add xs (VList []) ;;
    add (VList [a]) r).

Definition peek (p : Parser) : Parser :=
  parser_do (
    s <- run0 get ;;
    r <- run p true false ;;
    if negb (is_None r) then
      c <- cursor_of s ;; run0 (put c) ;; ret (VBool true)
    else ret (VBool false)).

Definition fatal (msg : string) : Parser :=
  parser_do (
    s <- run0 get ;;
    c <- cursor_of s ;;
    throw (ParserFailure (Some (msg ++ ":" ++ slice_to 16 c)))).

(** The pattern [[0-9]+]: the longest non-empty run of ASCII digits. *)
Definition is_digit (c : ascii) : bool :=
  let n := nat_of_ascii c in ((48 <=? n) && (n <=? 57))%nat.

Fixpoint count_digits (s : string) : nat :=
  match s with
  | String c r => if is_digit c then S (count_digits r) else 0
  | EmptyString => 0
  end.

Definition re_digits : regex :=
  fun s => match count_digits s with 0 => None | n => Some n end.

(** ** Vocabulary of the properties *)

(** Putting a list in front of the list a loop returns. *)
Definition prepend (a : list value) (o : Outcome value) : Outcome value :=
  match o with
  | Ret (VList l) s => Ret (VList (a ++ l)) s
  | _ => o
  end.

(** What the result of [moreThan0] becomes with one more element in front. *)
Definition cons_result (b : value) (r : Result) : Result :=
  match r with
  | Ok (VList l) s => Ok (VList (b :: l)) s
  | _ => r
  end.

(** The value [self & p] returns for the values [x] of [self] and [y] of
    [p]. *)
Definition pair_value (xy : value * value) : value :=
  VList [fst xy; snd xy].

(** [[sep1, p2, sep2, p3, ...]] for the pairs [[(sep1, p2), (sep2, p3), ...]]. *)
Definition interleave (pairs : list (value * value)) : list value :=
  flat_map (fun xy => [fst xy; snd xy]) pairs.

(** [word("a") >> unit(None)]: matches an [a], consumes it, and yields
    [None]. *)
Definition a_then_None : Parser := word "a" >>> unit VNone.

(** [peek(p)] on [s] as C1 words it: it succeeds with a boolean that tells
    whether [p] matched, and the cursor is [s] again. *)
Definition peek_never_consumes (p : Parser) (s : string) : Prop :=
  exists b : bool,
    peek p s = Ok (VBool b) s
    /\ (b = true <-> exists a s', p s = Ok a s').

(** [optional(p)] on [s] as C2 words it: the result is [[]] with the cursor
    unchanged, or [[value]] with the value of [p]. *)
Definition optional_never_fails (p : Parser) (s : string) : Prop :=
  optional p s = Ok (VList []) s
  \/ exists a s', p s = Ok a s' /\ optional p s = Ok (VList [a]) s'.

(** [self | p] on [s] as C3 words it.  Where [self] succeeds with [None],
    either reading of "produced a value" is allowed: the result is that of
    [self], or that of [p] on the cursor presented to [self]. *)
Definition or_runs_p_from_same_cursor (self p : Parser) (s : string) : Prop :=
  match self s with
  | Ok VNone s' => (self <|> p) s = Ok VNone s' \/ (self <|> p) s = p s
  | Ok a s' => (self <|> p) s = Ok a s'
  | NoResult => (self <|> p) s = p s
  | Raise _ => True
  end.

(** [moreThan0(p)] on [s] as C8 words it: it succeeds with a list. *)
Definition moreThan0_always_succeeds (p : Parser) (s : string) : Prop :=
  exists l s', moreThan0 p s = Ok (VList l) s'.

(** Texts made of whitespace only, and texts that begin or end with a
    whitespace character. *)
Fixpoint all_space (s : string) : bool :=
  match s with
  | EmptyString => true
  | String c r => isspace c && all_space r
  end.

Definition head_space (s : string) : bool :=
  match s with
  | EmptyString => false
  | String c _ => isspace c
  end.

Fixpoint last_space (s : string) : bool :=
  match s with
  | EmptyString => false
  | String c EmptyString => isspace c
  | String _ r => last_space r
  end.

(** The value of [(a & b) & c] regrouped as that of [a & (b & c)]. *)
Definition reassoc (r : Result) : Result :=
  match r with
  | Ok (VList [VList [x; y]; z]) s => Ok (VList [x; VList [y; z]]) s
  | _ => r
  end.

(** [reaches p s t]: the loop of [moreThan0(p)], started on the cursor [s],
    comes to run [p] on the cursor [t]: each turn before was a success of
    [p] that made the cursor shorter and did not return [None]. *)
Inductive reaches (p : Parser) : string -> string -> Prop :=
| reaches_here (s : string) : reaches p s s
| reaches_turn (s : string) (b : value) (s1 t : string) :
    p s = Ok b s1 ->
    String.length s1 < String.length s ->
    b <> VNone ->
    reaches p s1 t ->
    reaches p s t.

(** [sep_turns p sep s pairs s']: from the cursor [s], the turns of
    [moreThan0(sep & p)] give the pairs [pairs], each a value of [sep]
    followed at once by a value of [p], and stop at the cursor [s'], where
    the guarded [sep & p] yields no result. *)
Inductive sep_turns (p sep : Parser) :
  string -> list (value * value) -> string -> Prop :=
| sep_turns_stop (s : string) :
    moreThan0_q (sep <&> p) s = NoResult ->
    sep_turns p sep s [] s
| sep_turns_step (s : string) (x : value) (t1 : string) (y : value)
    (t2 : string) (pairs : list (value * value)) (s' : string) :
    sep s = Ok x t1 ->
    p t1 = Ok y t2 ->
    String.length t2 < String.length s ->
    sep_turns p sep t2 pairs s' ->
    sep_turns p sep s ((x, y) :: pairs) s'.

(** [word("x") | (word("!") >> fatal("boom"))] and the same with a comma:
    parsers that raise only where the cursor begins with [!]. *)
Definition x_or_fatal : Parser := word "x" <|> (word "!" >>> fatal "boom").

Definition comma_or_fatal : Parser :=
  word "," <|> (word "!" >>> fatal "boom").

(** * Properties *)

Ltac unfold_body :=
  unfold parser_do, __call__, seq, run0, run, ret, throw, get, put, fail.

Ltac unfold_body_in H :=
  unfold parser_do, __call__, seq, run0, run, ret, throw, get, put, fail in H.

(** ** The invocation step *)

Lemma call_run0 (m : Parser) (s : string) : parser_do (run0 m) s = m s.
Proof.
  unfold parser_do, __call__, run0, run.
  destruct (m s); reflexivity.
Qed.

Lemma run_Ok m nullable throwable s a s' :
  m s = Ok a s' -> run m nullable throwable s = Ret a s'.
Proof. intros H. unfold run. rewrite H. reflexivity. Qed.

Lemma run_Raise m nullable throwable s e :
  m s = Raise e -> run m nullable throwable s = Throw e.
Proof. intros H. unfold run. rewrite H. reflexivity. Qed.

Lemma run_nullable_NoResult m throwable s :
  m s = NoResult -> run m true throwable s = Ret VNone s.
Proof. intros H. unfold run. rewrite H. reflexivity. Qed.

(** ** The guard and the loop of [moreThan0] *)

Lemma moreThan0_q_eq (p : Parser) (s : string) :
  moreThan0_q p s =
  match p s with
  | Ok a s' =>
      if (String.length s' <? String.length s)%nat then Ok a s' else NoResult
  | NoResult => NoResult
  | Raise e => Raise e
  end.
Proof.
  unfold moreThan0_q. unfold_body.
  destruct (p s) as [a s'| |e]; simpl; try reflexivity.
  destruct (String.length s' <? String.length s)%nat; reflexivity.
Qed.

Lemma p_star_loop_eq (p : Parser) (a : list value) (s : string) :
  p_star_loop p a s =
  match run (moreThan0_q p) true false s with
  | Ret VNone s' => Ret (VList a) s'
  | Ret b s' => p_star_loop p (a ++ [b]) s'
  | Nothing => Nothing
  | Throw e => Throw e
  end.
Proof.
  rewrite p_star_loop_equation_1.
  destruct (inspect (run (moreThan0_q p) true false s)) as [o e].
  destruct o as [[] ?| |]; cbn; rewrite e; reflexivity.
Qed.

(** One turn of the loop, read off [p] itself. *)
Lemma p_star_loop_step (p : Parser) (a : list value) (s : string) :
  p_star_loop p a s =
  match p s with
  | Ok b s' =>
      if (String.length s' <? String.length s)%nat then
        if is_None b then Ret (VList a) s' else p_star_loop p (a ++ [b]) s'
      else Ret (VList a) s
  | NoResult => Ret (VList a) s
  | Raise e => Throw e
  end.
Proof.
  rewrite p_star_loop_eq. unfold run. rewrite moreThan0_q_eq.
  destruct (p s) as [b s'| |e]; try reflexivity.
  destruct (String.length s' <? String.length s)%nat; try reflexivity.
  destruct b; reflexivity.
Qed.

Lemma prepend_prepend a b o :
  prepend a (prepend b o) = prepend (a ++ b) o.
Proof.
  destruct o as [[] ?| |]; simpl; try reflexivity.
  rewrite app_assoc. reflexivity.
Qed.

Lemma p_star_loop_acc_aux (p : Parser) (n : nat) :
  forall s a, String.length s < n ->
    p_star_loop p a s = prepend a (p_star_loop p [] s).
Proof.
  induction n as [|n IH]; intros s a Hn; [lia|].
  rewrite (p_star_loop_step p a s), (p_star_loop_step p [] s).
  destruct (p s) as [b s'| |e]; simpl; try (rewrite app_nil_r; reflexivity);
    try reflexivity.
  destruct (String.length s' <? String.length s)%nat eqn:E; simpl;
    try (rewrite app_nil_r; reflexivity).
  apply Nat.ltb_lt in E.
  destruct (is_None b); simpl; try (rewrite app_nil_r; reflexivity).
  rewrite (IH s' (a ++ [b])%list) by lia.
  rewrite (IH s' [b]) by lia.
  rewrite prepend_prepend. reflexivity.
Qed.

Lemma p_star_loop_acc (p : Parser) (a : list value) (s : string) :
  p_star_loop p a s = prepend a (p_star_loop p [] s).
Proof. apply (p_star_loop_acc_aux p (S (String.length s))). lia. Qed.

(** The loop never ends on [Nothing]: it returns a list, having consumed at
    least one character for each element, or lets an exception of [p]
    through. *)
Lemma p_star_loop_total_aux (p : Parser) (n : nat) :
  forall s a, String.length s < n ->
    (exists l s', p_star_loop p a s = Ret (VList (a ++ l)) s'
                  /\ List.length l + String.length s' <= String.length s)
    \/ (exists e s0, p_star_loop p a s = Throw e /\ p s0 = Raise e).
Proof.
  induction n as [|n IH]; intros s a Hn; [lia|].
  rewrite p_star_loop_step.
  destruct (p s) as [b s'| |e] eqn:Hp.
  - destruct (String.length s' <? String.length s)%nat eqn:E.
    + apply Nat.ltb_lt in E. destruct (is_None b).
      * left. exists [], s'. rewrite app_nil_r. simpl. split; [reflexivity|lia].
      * destruct (IH s' (a ++ [b])%list) as [(l & s2 & Hl & Hlen)|(e & s0 & He & Hs0)];
          [lia| |].
        -- left. exists (b :: l), s2. rewrite Hl, <- app_assoc. simpl.
           split; [reflexivity|lia].
        -- right. exists e, s0. split; assumption.
    + left. exists [], s. rewrite app_nil_r. simpl. split; [reflexivity|lia].
  - left. exists [], s. rewrite app_nil_r. simpl. split; [reflexivity|lia].
  - right. exists e, s. split; [reflexivity|assumption].
Qed.

Lemma moreThan0_total (p : Parser) (s : string) :
  (exists l s', moreThan0 p s = Ok (VList l) s'
                /\ List.length l + String.length s' <= String.length s)
  \/ (exists e s0, moreThan0 p s = Raise e /\ p s0 = Raise e).
Proof.
  unfold moreThan0, parser_do, __call__.
  destruct (p_star_loop_total_aux p (S (String.length s)) s []) as
    [(l & s' & Hl & Hlen)|(e & s0 & He & Hs0)]; [lia| |].
  - left. exists l, s'. rewrite Hl. simpl. split; [reflexivity|assumption].
  - right. exists e, s0. rewrite He. split; [reflexivity|assumption].
Qed.

Lemma moreThan0_unfold (p : Parser) (s : string) :
  moreThan0 p s =
  match p s with
  | Ok b s' =>
      if (String.length s' <? String.length s)%nat then
        if is_None b then Ok (VList []) s' else cons_result b (moreThan0 p s')
      else Ok (VList []) s
  | NoResult => Ok (VList []) s
  | Raise e => Raise e
  end.
Proof.
  unfold moreThan0, parser_do, __call__. rewrite p_star_loop_step.
  destruct (p s) as [b s'| |e]; try reflexivity.
  destruct (String.length s' <? String.length s)%nat; try reflexivity.
  destruct (is_None b); try reflexivity.
  rewrite p_star_loop_acc. simpl.
  destruct (p_star_loop p [] s') as [[] ?| |]; reflexivity.
Qed.

(** Every element of the returned list is a value [p] returned. *)
Lemma moreThan0_Forall (P : value -> Prop) (p : Parser) :
  (forall s b s', p s = Ok b s' -> P b) ->
  forall n s l s', String.length s < n ->
    moreThan0 p s = Ok (VList l) s' -> Forall P l.
Proof.
  intros HP. induction n as [|n IH]; intros s l s' Hn; [lia|].
  rewrite moreThan0_unfold.
  destruct (p s) as [b s1| |e] eqn:Hp; try discriminate.
  - destruct (String.length s1 <? String.length s)%nat eqn:E.
    + apply Nat.ltb_lt in E. destruct (is_None b).
      * intros H. injection H as <- _. constructor.
      * destruct (moreThan0 p s1) as [[] ?| |] eqn:Hm; simpl; try discriminate.
        intros H. injection H as <- _. constructor.
        -- eapply HP, Hp.
        -- eapply (IH s1); [lia|exact Hm].
    + intros H. injection H as <- _. constructor.
  - intros H. injection H as <- _. constructor.
Qed.

(** The loop raises exactly when [p] raises on a cursor the loop comes to. *)
Lemma moreThan0_Raise_of_reaches (p : Parser) (s t : string) (e : error) :
  reaches p s t -> p t = Raise e -> moreThan0 p s = Raise e.
Proof.
  intros Hr He. induction Hr as [s|s b s1 t Hp Hlen Hb _ IH].
  - rewrite moreThan0_unfold, He. reflexivity.
  - rewrite moreThan0_unfold, Hp.
    apply Nat.ltb_lt in Hlen. rewrite Hlen.
    destruct b; try (exfalso; apply Hb; reflexivity); simpl;
      rewrite (IH He); reflexivity.
Qed.

Lemma moreThan0_Raise_reaches_aux (p : Parser) (e : error) :
  forall n s, String.length s < n ->
    moreThan0 p s = Raise e -> exists t, reaches p s t /\ p t = Raise e.
Proof.
  induction n as [|n IH]; intros s Hn; [lia|].
  rewrite moreThan0_unfold.
  destruct (p s) as [b s1| |e'] eqn:Hp; try discriminate.
  - destruct (String.length s1 <? String.length s)%nat eqn:E; [|discriminate].
    apply Nat.ltb_lt in E.
    destruct (is_None b) eqn:Hb; [discriminate|].
    destruct (moreThan0 p s1) as [[] ?| |e'] eqn:Hm; simpl; try discriminate.
    intros H. injection H as ->.
    destruct (IH s1 ltac:(lia) Hm) as (t & Hr & Ht).
    exists t. split; [|exact Ht].
    apply (reaches_turn p s b s1 t Hp E); [|exact Hr].
    intros ->. discriminate.
  - intros H. injection H as ->. exists s. split; [constructor|exact Hp].
Qed.

Lemma moreThan0_Raise_iff (p : Parser) (s : string) (e : error) :
  moreThan0 p s = Raise e <-> exists t, reaches p s t /\ p t = Raise e.
Proof.
  split.
  - apply (moreThan0_Raise_reaches_aux p e (S (String.length s))). lia.
  - intros (t & Hr & Ht). exact (moreThan0_Raise_of_reaches p s t e Hr Ht).
Qed.

Lemma moreThan0_Ok_of_no_Raise (p : Parser) (s : string) :
  (forall t e, reaches p s t -> p t <> Raise e) ->
  exists l s',
    moreThan0 p s = Ok (VList l) s'
    /\ List.length l + String.length s' <= String.length s.
Proof.
  intros Hp.
  destruct (moreThan0_total p s) as [H|(e & s0 & He & _)]; [exact H|].
  apply moreThan0_Raise_iff in He. destruct He as (t & Hr & Ht).
  exfalso. exact (Hp t e Hr Ht).
Qed.

(** ** Lookahead, option and alternative: the nullable policy *)

Lemma a_then_None_ab : a_then_None "ab" = Ok VNone "b".
Proof. reflexivity. Qed.

(** C1, as stated, fails on two kinds of parser.  [peek(fatal("boom"))] does
    not succeed: the fatal signal leaves it.  And
    [peek(word("a") >> unit(None))] on ["ab"] answers [False] although the
    parser matched, and leaves the cursor at ["b"]. *)
Lemma peek_consumes_after_None :
  (peek (fatal "boom") "abc" = Raise (ParserFailure (Some "boom:abc"))
   /\ ~ peek_never_consumes (fatal "boom") "abc")
  /\ (a_then_None "ab" = Ok VNone "b"
      /\ peek a_then_None "ab" = Ok (VBool false) "b"
      /\ ~ peek_never_consumes a_then_None "ab").
Proof.
  split; (repeat (split; [reflexivity|]));
    intros [b [H _]]; vm_compute in H; discriminate.
Qed.

(** C1 (amended): for every parser [p] and cursor [s] on which [p] does not
    succeed with the value [None]: when [p] matches, [peek(p)] succeeds with
    [True]; when [p] yields no result, it succeeds with [False]; in both cases
    the cursor is [s] unchanged; a fatal signal of [p] propagates. *)
Theorem peek_lookahead (p : Parser) (s : string) :
  (forall s', p s <> Ok VNone s') ->
  peek p s =
  match p s with
  | Ok _ _ => Ok (VBool true) s
  | NoResult => Ok (VBool false) s
  | Raise e => Raise e
  end.
Proof.
  intros HN. unfold peek. unfold_body.
  destruct (p s) as [a s'| |e]; try reflexivity.
  destruct a; try reflexivity.
  exfalso. apply (HN s'). reflexivity.
Qed.

Lemma peek_lookahead_witness :
  (forall s', word "if" "  if x" <> Ok VNone s')
  /\ peek (word "if") "  if x" = Ok (VBool true) "  if x".
Proof.
  assert (H : forall s', word "if" "  if x" <> Ok VNone s')
    by (intros s' E; vm_compute in E; discriminate).
  split; [exact H|]. exact (peek_lookahead (word "if") "  if x" H).
Defined.

(** C2, as stated, fails on two kinds of parser.  [optional(fatal("boom"))]
    returns nothing: the fatal signal leaves it.  And
    [optional(word("a") >> unit(None))] on ["ab"] returns [[]] with the cursor
    moved to ["b"]. *)
Lemma optional_consumes_after_None :
  (optional (fatal "boom") "abc" = Raise (ParserFailure (Some "boom:abc"))
   /\ ~ optional_never_fails (fatal "boom") "abc")
  /\ (a_then_None "ab" = Ok VNone "b"
      /\ optional a_then_None "ab" = Ok (VList []) "b"
      /\ ~ optional_never_fails a_then_None "ab").
Proof.
  split; (repeat (split; [reflexivity|]));
    intros [H|(a & s' & _ & H)]; vm_compute in H; discriminate.
Qed.

(** C2 (amended): for every parser [p] and cursor [s] on which [p] does not
    succeed with the value [None], [optional(p)] never yields no result: it
    returns [[value]] with the value and cursor of [p] when [p] matches, and
    [[]] with the cursor unchanged when [p] yields no result; a fatal signal
    of [p] propagates. *)
Theorem optional_spec (p : Parser) (s : string) :
  (forall s', p s <> Ok VNone s') ->
  optional p s =
  match p s with
  | Ok a s' => Ok (VList [a]) s'
  | NoResult => Ok (VList []) s
  | Raise e => Raise e
  end.
Proof.
  intros HN. unfold optional. unfold_body.
  destruct (p s) as [a s'| |e]; try reflexivity.
  destruct a; try reflexivity.
  exfalso. apply (HN s'). reflexivity.
Qed.

Lemma optional_spec_witness :
  (forall s', word "x" "xy" <> Ok VNone s')
  /\ optional (word "x") "xy" = Ok (VList [VStr "x"]) "y".
Proof.
  assert (H : forall s', word "x" "xy" <> Ok VNone s')
    by (intros s' E; vm_compute in E; discriminate).
  split; [exact H|]. exact (optional_spec (word "x") "xy" H).
Defined.

(** C3, as stated, fails: in [(word("a") >> unit(None)) | word("b")] on
    ["ab"] the left parser succeeds, yet the right one is run, and from the
    cursor ["b"] rather than from ["ab"]. *)
Lemma or_runs_p_after_None :
  a_then_None "ab" = Ok VNone "b"
  /\ word "b" "ab" = NoResult
  /\ (a_then_None <|> word "b") "ab" = Ok (VStr "b") ""
  /\ ~ or_runs_p_from_same_cursor a_then_None (word "b") "ab".
Proof.
  repeat (split; [reflexivity|]).
  unfold or_runs_p_from_same_cursor. rewrite a_then_None_ab.
  intros [H|H]; vm_compute in H; discriminate.
Qed.

(** C3 (amended): for every pair of parsers [self] and [p] and every cursor
    [s] on which [self] does not succeed with the value [None]: when [self]
    succeeds, its value and cursor are the whole result, whatever [p] is;
    when [self] yields no result, [p] is run from [s] and its outcome is the
    whole outcome as it is; a fatal signal of [self] propagates. *)
Theorem or_spec (self p : Parser) (s : string) :
  (forall s', self s <> Ok VNone s') ->
  (self <|> p) s =
  match self s with
  | Ok a s' => Ok a s'
  | NoResult => p s
  | Raise e => Raise e
  end.
Proof.
  intros HN. unfold __or__. unfold_body.
  destruct (self s) as [a s'| |e]; try reflexivity.
  - destruct a; try reflexivity.
    exfalso. apply (HN s'). reflexivity.
  - simpl. destruct (p s); reflexivity.
Qed.

Lemma or_spec_witness :
  (forall s', word "a" "ba" <> Ok VNone s')
  /\ (word "a" <|> word "b") "ba" = Ok (VStr "b") "a".
Proof.
  assert (H : forall s', word "a" "ba" <> Ok VNone s')
    by (intros s' E; vm_compute in E; discriminate).
  split; [exact H|]. exact (or_spec (word "a") (word "b") "ba" H).
Defined.

(** C4: when a parser [m] succeeds with the value [None] while consuming
    input, [run(m, nullable=True)] returns [None], the marker it also returns
    when a parser fails, and the holder is advanced to the new cursor; the
    combinators built on the nullable policy then behave as on a parser that
    did not match, started at the advanced cursor: [m | p] runs [p] there,
    [optional(m)] returns [[]], [moreThan0(m)] stops, [peek(m)] answers
    [False], and in each case the input [m] consumed stays consumed. *)
Theorem None_success_taken_for_failure (m : Parser) (s s' : string) :
  m s = Ok VNone s' ->
  String.length s' < String.length s ->
  run m true false s = Ret VNone s'
  /\ (forall m0, m0 s = NoResult -> run m0 true false s = Ret VNone s)
  /\ (forall p, (m <|> p) s = p s' /\ (fail <|> p) s' = p s')
  /\ (optional m s = Ok (VList []) s'
      /\ optional fail s' = Ok (VList []) s')
  /\ (moreThan0 m s = Ok (VList []) s'
      /\ moreThan0 fail s' = Ok (VList []) s')
  /\ (peek m s = Ok (VBool false) s'
      /\ peek fail s' = Ok (VBool false) s').
Proof.
  intros Hm Hlen.
  split; [apply run_Ok; exact Hm|].
  split; [intros m0 H0; apply run_nullable_NoResult; exact H0|].
  split.
  { intros p. unfold __or__. unfold_body. rewrite Hm. simpl.
    split; destruct (p s'); reflexivity. }
  split.
  { unfold optional. unfold_body. rewrite Hm. split; reflexivity. }
  split.
  { rewrite !moreThan0_unfold. rewrite Hm.
    apply Nat.ltb_lt in Hlen. rewrite Hlen. split; reflexivity. }
  unfold peek. unfold_body. rewrite Hm. split; reflexivity.
Qed.

Lemma None_success_taken_for_failure_witness :
  a_then_None "ab" = Ok VNone "b"
  /\ String.length "b" < String.length "ab"
  /\ run a_then_None true false "ab" = Ret VNone "b"
  /\ (a_then_None <|> word "b") "ab" = word "b" "b"
  /\ optional a_then_None "ab" = Ok (VList []) "b"
  /\ moreThan0 a_then_None "ab" = Ok (VList []) "b"
  /\ peek a_then_None "ab" = Ok (VBool false) "b".
Proof.
  assert (Hm : a_then_None "ab" = Ok VNone "b") by reflexivity.
  assert (Hlen : String.length "b" < String.length "ab") by (simpl; lia).
  destruct (None_success_taken_for_failure a_then_None "ab" "b" Hm Hlen)
    as (Hrun & _ & Hor & [Hopt _] & [Hstar _] & [Hpeek _]).
  split; [exact Hm|]. split; [exact Hlen|]. split; [exact Hrun|].
  split; [exact (proj1 (Hor (word "b")))|]. split; [exact Hopt|].
  split; [exact Hstar|exact Hpeek].
Defined.

(** A parser mapped to [None] is such a parser as well. *)
Example mapped_to_None :
  __gt__ (word "a") (fun _ => VNone) "ab" = Ok VNone "b".
Proof. reflexivity. Qed.

(** ** Separated lists *)

Lemma and_Ok (self p : Parser) s x s1 y s2 :
  self s = Ok x s1 -> p s1 = Ok y s2 ->
  (self <&> p) s = Ok (VList [x; y]) s2.
Proof.
  intros H1 H2. unfold __and__. unfold_body. rewrite H1, H2. reflexivity.
Qed.

Lemma and_Ok_inv (self p : Parser) s b s2 :
  (self <&> p) s = Ok b s2 ->
  exists x y s1, self s = Ok x s1 /\ p s1 = Ok y s2 /\ b = VList [x; y].
Proof.
  unfold __and__. unfold_body.
  destruct (self s) as [x s1| |e]; try discriminate.
  destruct (p s1) as [y s2'| |e] eqn:Hp; try discriminate.
  intros H. injection H as <- <-. exists x, y, s1. repeat split. exact Hp.
Qed.

Lemma and_NoResult_inv (self p : Parser) s :
  (self <&> p) s = NoResult ->
  self s = NoResult \/ exists x s1, self s = Ok x s1 /\ p s1 = NoResult.
Proof.
  unfold __and__. unfold_body.
  destruct (self s) as [x s1| |e]; try discriminate; [|left; reflexivity].
  destruct (p s1) as [y s2'| |e] eqn:Hp; try discriminate.
  intros _. right. exists x, s1. split; [reflexivity|exact Hp].
Qed.

Lemma Forall_pair_values (l : list value) :
  Forall (fun b => exists x y, b = VList [x; y]) l ->
  exists pairs, l = map pair_value pairs.
Proof.
  induction 1 as [|b l (x & y & ->) _ (pairs & ->)].
  - exists []. reflexivity.
  - exists ((x, y) :: pairs). reflexivity.
Qed.

Lemma reduce_add_pairs (pairs : list (value * value)) :
  forall acc s,
    reduce add (map pair_value pairs) (VList acc) s
    = Ret (VList (acc ++ interleave pairs)) s.
Proof.
  induction pairs as [|[x y] pairs IH]; intros acc s; simpl.
  - unfold ret. rewrite app_nil_r. reflexivity.
  - unfold seq, ret. simpl. rewrite IH, <- app_assoc. reflexivity.
Qed.

(** [moreThan0(sep & p)] returns a list of two-element lists, or lets an
    exception through. *)
Lemma moreThan0_and_pairs (sep p : Parser) (s : string) :
  (exists pairs s',
      moreThan0 (sep <&> p) s = Ok (VList (map pair_value pairs)) s')
  \/ (exists e, moreThan0 (sep <&> p) s = Raise e).
Proof.
  destruct (moreThan0_total (sep <&> p) s)
    as [(l & s' & Hl & _)|(e & s0 & He & _)].
  - left.
    assert (HF : Forall (fun b => exists x y, b = VList [x; y]) l).
    { apply (moreThan0_Forall _ (sep <&> p)) with
        (n := S (String.length s)) (s := s) (s' := s'); [|lia|exact Hl].
      intros t b t' Hb. apply and_Ok_inv in Hb.
      destruct Hb as (x & y & _ & _ & _ & ->). exists x, y. reflexivity. }
    destruct (Forall_pair_values l HF) as (pairs & ->).
    exists pairs, s'. exact Hl.
  - right. exists e. exact He.
Qed.

Lemma sepBy_Ok (p sep : Parser) s a s1 pairs s2 :
  p s = Ok a s1 ->
  moreThan0 (sep <&> p) s1 = Ok (VList (map pair_value pairs)) s2 ->
  sepBy p sep s = Ok (VList (a :: interleave pairs)) s2.
Proof.
  intros Hp Hm. unfold sepBy, parser_do, __call__, seq, run0, run.
  rewrite Hp, Hm. simpl. unfold ret at 1.
  rewrite reduce_add_pairs. reflexivity.
Qed.

Lemma sepBy_Raise (p sep : Parser) s a s1 e :
  p s = Ok a s1 ->
  moreThan0 (sep <&> p) s1 = Raise e ->
  sepBy p sep s = Raise e.
Proof.
  intros Hp Hm. unfold sepBy, parser_do, __call__, seq, run0, run.
  rewrite Hp, Hm. reflexivity.
Qed.

(** C5: [sepBy(p, sep)] runs [p] once, then [moreThan0(sep & p)], and returns
    the value of the first [p] followed by the values of the pairs, those of
    the separator included: [[p1, sep1, p2, sep2, p3, ...]]; it yields no
    result exactly when the first [p] does.  [sepBy(pattern("[0-9]+"),
    word(","))] on ["1,2,3"] returns [["1", ",", "2", ",", "3"]] and leaves the
    empty cursor. *)
Theorem sepBy_interleaves :
  (forall p sep s, sepBy p sep s = NoResult <-> p s = NoResult)
  /\ (forall p sep s a s1 v s2,
         p s = Ok a s1 ->
         moreThan0 (sep <&> p) s1 = Ok v s2 ->
         exists pairs,
           v = VList (map pair_value pairs)
           /\ sepBy p sep s = Ok (VList (a :: interleave pairs)) s2)
  /\ (forall p sep s a s1,
         p s = Ok a s1 ->
         (sep <&> p) s1 = NoResult ->
         sepBy p sep s = Ok (VList [a]) s1)
  /\ (forall p sep s a s1 x s2 y s3,
         p s = Ok a s1 -> sep s1 = Ok x s2 -> p s2 = Ok y s3 ->
         String.length s3 < String.length s1 ->
         sepBy p sep s = cons_result a (cons_result x (sepBy p sep s2)))
  /\ sepBy (pattern re_digits) (word ",") "1,2,3"
     = Ok (VList [VStr "1"; VStr ","; VStr "2"; VStr ","; VStr "3"]) "".
Proof.
  split; [|split; [|split; [|split]]].
  - intros p sep s. split.
    + intros H. destruct (p s) as [a s1| |e] eqn:Hp; [exfalso| reflexivity |exfalso].
      * destruct (moreThan0_and_pairs sep p s1) as [(pairs & s2 & Hm)|(e & Hm)].
        -- rewrite (sepBy_Ok p sep s a s1 pairs s2 Hp Hm) in H. discriminate.
        -- rewrite (sepBy_Raise p sep s a s1 e Hp Hm) in H. discriminate.
      * unfold sepBy, parser_do, __call__, seq, run0, run in H.
        rewrite Hp in H. discriminate.
    + intros Hp. unfold sepBy, parser_do, __call__, seq, run0, run.
      rewrite Hp. reflexivity.
  - intros p sep s a s1 v s2 Hp Hm.
    destruct (moreThan0_and_pairs sep p s1) as [(pairs & s2' & Hm')|(e & Hm')];
      rewrite Hm' in Hm; [|discriminate].
    injection Hm as <- <-. exists pairs. split; [reflexivity|].
    apply (sepBy_Ok p sep s a s1 pairs s2' Hp Hm').
  - intros p sep s a s1 Hp Hn.
    apply (sepBy_Ok p sep s a s1 [] s1 Hp).
    rewrite moreThan0_unfold, Hn. reflexivity.
  - intros p sep s a s1 x s2 y s3 Hp Hsep Hp2 Hlen.
    assert (Hstep : moreThan0 (sep <&> p) s1
                    = cons_result (VList [x; y]) (moreThan0 (sep <&> p) s3)).
    { rewrite (moreThan0_unfold (sep <&> p) s1).
      rewrite (and_Ok sep p s1 x s2 y s3 Hsep Hp2).
      apply Nat.ltb_lt in Hlen. rewrite Hlen. reflexivity. }
    destruct (moreThan0_and_pairs sep p s3) as [(pairs & s4 & Hm)|(e & Hm)];
      rewrite Hm in Hstep; simpl in Hstep.
    + rewrite (sepBy_Ok p sep s a s1 ((x, y) :: pairs) s4 Hp Hstep).
      rewrite (sepBy_Ok p sep s2 y s3 pairs s4 Hp2 Hm). reflexivity.
    + rewrite (sepBy_Raise p sep s a s1 e Hp Hstep).
      rewrite (sepBy_Raise p sep s2 y s3 e Hp2 Hm). reflexivity.
  - reflexivity.
Qed.

(** ** Failure and the cursor *)

(** C6: a parser that yields no result leaves the cursor of its caller as it
    was.  [fail] yields no result on every cursor; the internal signal is
    captured at the boundary of the call; [run] leaves the holder unchanged
    when the parser it runs yields no result, so that the caller reads the
    same cursor afterwards; and the right branch of [self | p] is presented
    with the cursor [self] started from, also when [self] consumed part of
    the input before it failed. *)
Theorem failure_leaves_cursor :
  (forall s, fail s = NoResult)
  /\ (forall body s, body s = Nothing -> __call__ body s = NoResult)
  /\ (forall m s nullable throwable a s',
         m s = NoResult -> run m nullable throwable s = Ret a s' ->
         a = VNone /\ s' = s)
  /\ (forall m s,
         m s = NoResult ->
         parser_do (run m true false ;; run0 get) s = Ok (VStr s) s)
  /\ (forall self p s, self s = NoResult -> (self <|> p) s = p s)
  /\ ((word "a" <&> word "b") "ac" = NoResult
      /\ ((word "a" <&> word "b") <|> get) "ac" = Ok (VStr "ac") "ac").
Proof.
  split; [reflexivity|].
  split; [intros body s H; unfold __call__; rewrite H; reflexivity|].
  split.
  { intros m s nullable throwable a s' Hm. unfold run. rewrite Hm.
    destruct nullable; [|destruct throwable]; try discriminate.
    intros H. injection H as <- <-. split; reflexivity. }
  split.
  { intros m s Hm. unfold_body. rewrite Hm. reflexivity. }
  split.
  { intros self p s Hs. unfold __or__. unfold_body. rewrite Hs. simpl.
    destruct (p s); reflexivity. }
  split; reflexivity.
Qed.

Lemma failure_leaves_cursor_witness :
  (word "a" <&> word "b") "ac" = NoResult
  /\ parser_do (run (word "a" <&> word "b") true false ;; run0 get) "ac"
     = Ok (VStr "ac") "ac".
Proof.
  assert (H : (word "a" <&> word "b") "ac" = NoResult) by reflexivity.
  split; [exact H|].
  exact (proj1 (proj2 (proj2 (proj2 failure_leaves_cursor))) _ "ac" H).
Defined.

(** ** The fatal signal *)

Lemma slice_to_length (n : nat) :
  forall s, String.length (slice_to n s) = Nat.min n (String.length s).
Proof.
  induction n as [|n IH]; intros [|c s]; simpl; try reflexivity.
  rewrite IH. reflexivity.
Qed.

Lemma slice_to_all (n : nat) :
  forall s, String.length s <= n -> slice_to n s = s.
Proof.
  induction n as [|n IH]; intros [|c s] H; simpl in *; try reflexivity;
    [lia|].
  rewrite IH by lia. reflexivity.
Qed.

Lemma slice_to_from (n : nat) :
  forall s, slice_to n s ++ slice_from n s = s.
Proof.
  induction n as [|n IH]; intros [|c s]; simpl; try reflexivity.
  rewrite IH. reflexivity.
Qed.

Lemma fatal_eq (msg s : string) :
  fatal msg s = Raise (ParserFailure (Some (msg ++ ":" ++ slice_to 16 s))).
Proof. reflexivity. Qed.

(** An exception of the parser that a combinator runs first leaves the
    combinator. *)
Lemma Raise_first (m : Parser) (s : string) (e : error) :
  m s = Raise e ->
  (forall p, (m <|> p) s = Raise e /\ (m <&> p) s = Raise e
             /\ (m >>> p) s = Raise e /\ (m <<< p) s = Raise e)
  /\ (forall f, __gt__ m f s = Raise e)
  /\ (forall f, bind m f s = Raise e)
  /\ optional m s = Raise e
  /\ moreThan0 m s = Raise e
  /\ moreThan1 m s = Raise e
  /\ (forall sep, sepBy m sep s = Raise e)
  /\ peek m s = Raise e.
Proof.
  intros Hm.
  split; [intros p; repeat split|repeat split; try intros ?].
  all: try rewrite moreThan0_unfold.
  all: unfold __or__, __and__, __rshift__, __lshift__, __gt__, bind, optional,
         moreThan1, sepBy, peek; unfold_body; rewrite Hm; reflexivity.
Qed.

(** C7: [fatal(msg)] raises [ParserFailure] on every cursor, with the message
    followed by a colon and the first 16 characters of the cursor, all of
    them when there are fewer, and nothing after them.  [run] passes the
    signal on under every failure policy, the boundary of a call does not
    capture it, and so it leaves every combinator, whether the parser that
    raises is run first or later: the second parser of a sequence or of an
    alternative, [p] at a later turn of [moreThan0] or [moreThan1], [p] or
    the separator at a later turn of [sepBy].  [moreThan0(p)] raises exactly
    when [p] raises on a cursor its loop comes to.
    [fatal("expected value")] on ["1234567890123456789"] inside an
    alternative reaches the caller with the message
    ["expected value:1234567890123456"]. *)
Theorem fatal_propagates :
  (forall msg s,
      fatal msg s = Raise (ParserFailure (Some (msg ++ ":" ++ slice_to 16 s))))
  /\ (forall s,
         String.length (slice_to 16 s) = Nat.min 16 (String.length s)
         /\ slice_to 16 s ++ slice_from 16 s = s)
  /\ (forall s, String.length s <= 16 -> slice_to 16 s = s)
  /\ (forall m s e nullable throwable,
         m s = Raise e -> run m nullable throwable s = Throw e)
  /\ (forall body s e, body s = Throw e -> __call__ body s = Raise e)
  /\ (forall m s e,
         m s = Raise e ->
         (forall p, (m <|> p) s = Raise e /\ (m <&> p) s = Raise e
                    /\ (m >>> p) s = Raise e /\ (m <<< p) s = Raise e)
         /\ (forall f, __gt__ m f s = Raise e)
         /\ (forall f, bind m f s = Raise e)
         /\ optional m s = Raise e
         /\ moreThan0 m s = Raise e
         /\ moreThan1 m s = Raise e
         /\ (forall sep, sepBy m sep s = Raise e)
         /\ peek m s = Raise e)
  /\ (forall self p s e,
         self s = NoResult -> p s = Raise e -> (self <|> p) s = Raise e)
  /\ (forall self p s a s1 e,
         self s = Ok a s1 -> p s1 = Raise e ->
         (self <&> p) s = Raise e /\ (self >>> p) s = Raise e
         /\ (self <<< p) s = Raise e)
  /\ (forall self f s a s1 e,
         self s = Ok a s1 -> f a s1 = Raise e -> bind self f s = Raise e)
  /\ (forall p,
         (fatal "expected value" <|> p) "1234567890123456789"
         = Raise (ParserFailure (Some "expected value:1234567890123456"))
         /\ ((fail <|> fatal "expected value") <|> p) "1234567890123456789"
            = Raise (ParserFailure (Some "expected value:1234567890123456")))
  /\ (forall p s e,
         moreThan0 p s = Raise e <-> exists t, reaches p s t /\ p t = Raise e)
  /\ (forall p s a s1 t e,
         p s = Ok a s1 -> reaches p s1 t -> p t = Raise e ->
         moreThan1 p s = Raise e)
  /\ (forall p sep s a s1 t e,
         p s = Ok a s1 -> reaches (sep <&> p) s1 t ->
         sep t = Raise e \/ (exists x t1, sep t = Ok x t1 /\ p t1 = Raise e) ->
         sepBy p sep s = Raise e)
  /\ (moreThan0 x_or_fatal "x!" = Raise (ParserFailure (Some "boom:"))
      /\ moreThan1 x_or_fatal "xx!" = Raise (ParserFailure (Some "boom:"))
      /\ sepBy x_or_fatal (word ",") "x,x,!"
         = Raise (ParserFailure (Some "boom:"))
      /\ sepBy (word "x") comma_or_fatal "x,x!"
         = Raise (ParserFailure (Some "boom:"))).
Proof.
  split; [exact fatal_eq|].
  split; [intros s; split; [apply slice_to_length|apply slice_to_from]|].
  split; [intros s; apply slice_to_all|].
  split; [intros m s e nullable throwable; apply run_Raise|].
  split; [intros body s e H; unfold __call__; rewrite H; reflexivity|].
  split; [exact Raise_first|].
  split.
  { intros self p s e Hs Hp. unfold __or__. unfold_body.
    rewrite Hs. simpl. rewrite Hp. reflexivity. }
  split.
  { intros self p s a s1 e Hs Hp.
    unfold __and__, __rshift__, __lshift__. unfold_body.
    rewrite Hs, Hp. repeat split. }
  split.
  { intros self f s a s1 e Hs Hf. unfold bind. unfold_body.
    rewrite Hs, Hf. reflexivity. }
  split; [intros p; split; reflexivity|].
  split; [exact moreThan0_Raise_iff|].
  split.
  { intros p s a s1 t e Hp Hr Ht.
    pose proof (moreThan0_Raise_of_reaches p s1 t e Hr Ht) as Hm.
    unfold moreThan1. unfold_body. rewrite Hp, Hm. reflexivity. }
  split.
  { intros p sep s a s1 t e Hp Hr Ht.
    apply (sepBy_Raise p sep s a s1 e Hp).
    apply (moreThan0_Raise_of_reaches (sep <&> p) s1 t e Hr).
    unfold __and__. unfold_body.
    destruct Ht as [Ht|(x & t1 & Hx & Ht)].
    - rewrite Ht. reflexivity.
    - rewrite Hx, Ht. reflexivity. }
  repeat split.
Qed.

Lemma fatal_propagates_witness :
  fatal "expected value" "1234567890123456789"
  = Raise (ParserFailure (Some "expected value:1234567890123456"))
  /\ optional (fatal "expected value") "1234567890123456789"
     = Raise (ParserFailure (Some "expected value:1234567890123456")).
Proof.
  assert (H : fatal "expected value" "1234567890123456789"
              = Raise (ParserFailure (Some "expected value:1234567890123456")))
    by reflexivity.
  split; [exact H|].
  destruct fatal_propagates as (_ & _ & _ & _ & _ & Hfirst & _).
  destruct (Hfirst _ _ _ H) as (_ & _ & _ & Hopt & _).
  exact Hopt.
Defined.

(** ** Words *)

Lemma lstrip_spec (s : string) :
  exists l, s = l ++ lstrip s /\ all_space l = true
            /\ head_space (lstrip s) = false.
Proof.
  induction s as [|c r (l & Hl & Hsp & Hhd)]; simpl.
  - exists "". repeat split.
  - destruct (isspace c) eqn:E.
    + exists (String c l). simpl. rewrite <- Hl, E, Hsp. repeat split.
      exact Hhd.
    + exists "". simpl. repeat split. exact E.
Qed.

Lemma rstrip_spec (s : string) :
  exists r, s = rstrip s ++ r /\ all_space r = true
            /\ last_space (rstrip s) = false
            /\ (head_space s = false -> head_space (rstrip s) = false).
Proof.
  induction s as [|c t (r & Hr & Hsp & Hlast & _)]; simpl.
  - exists "". repeat split.
  - destruct (rstrip t) as [|d u] eqn:E.
    + simpl in Hr. subst t. destruct (isspace c) eqn:Ec.
      * exists (String c r). simpl. rewrite Ec, Hsp. repeat split.
      * exists r. simpl. repeat split; auto.
    + exists r. simpl. rewrite Hr at 1. repeat split; auto.
Qed.

Lemma strip_spec (s : string) :
  exists l r, s = l ++ strip s ++ r
              /\ all_space l = true /\ all_space r = true
              /\ head_space (strip s) = false /\ last_space (strip s) = false.
Proof.
  destruct (lstrip_spec s) as (l & Hl & Hlsp & Hhd).
  destruct (rstrip_spec (lstrip s)) as (r & Hr & Hrsp & Hlast & Hkeep).
  exists l, r. unfold strip. rewrite <- Hr.
  repeat split; try assumption. apply Hkeep. exact Hhd.
Qed.

Lemma word_eq (pstr s : string) :
  word pstr s =
  if (slice_to (String.length pstr) (strip s) =? pstr)%string
  then Ok (VStr pstr) (slice_from (String.length pstr) (strip s))
  else NoResult.
Proof.
  unfold word. unfold_body. unfold py_strip, ret. simpl.
  destruct (slice_to (String.length pstr) (strip s) =? pstr)%string;
    reflexivity.
Qed.

Lemma slice_to_append (a b : string) :
  slice_to (String.length a) (a ++ b) = a.
Proof. induction a as [|c a IH]; simpl; [destruct b|rewrite IH]; reflexivity. Qed.

Lemma slice_from_append (a b : string) :
  slice_from (String.length a) (a ++ b) = b.
Proof. induction a as [|c a IH]; simpl; [destruct b; reflexivity|exact IH]. Qed.

(** C9: [word(pstr)] strips the cursor at both ends and compares the first
    [len(pstr)] characters of the stripped text with [pstr]: when they are
    equal it returns [pstr] and leaves the stripped text from position
    [len(pstr)] on, otherwise it yields no result.  What follows the prefix
    is not looked at: on ["  if x"] [word("if")] returns ["if"] and leaves
    [" x"], on ["iffy"] it returns ["if"] and leaves ["fy"]. *)
Theorem word_prefix_only :
  (forall pstr s,
      word pstr s =
      if (slice_to (String.length pstr) (strip s) =? pstr)%string
      then Ok (VStr pstr) (slice_from (String.length pstr) (strip s))
      else NoResult)
  /\ (forall pstr rest s,
         strip s = pstr ++ rest -> word pstr s = Ok (VStr pstr) rest)
  /\ (forall pstr s,
         slice_to (String.length pstr) (strip s) <> pstr ->
         word pstr s = NoResult)
  /\ (forall s, exists l r,
         s = l ++ strip s ++ r
         /\ all_space l = true /\ all_space r = true
         /\ head_space (strip s) = false /\ last_space (strip s) = false)
  /\ strip "  if x" = "if x"
  /\ word "if" "  if x" = Ok (VStr "if") " x"
  /\ word "if" "iffy" = Ok (VStr "if") "fy"
  /\ word "if" "  of x" = NoResult.
Proof.
  split; [exact word_eq|].
  split.
  { intros pstr rest s Hs. rewrite word_eq, Hs.
    rewrite slice_to_append, slice_from_append, String.eqb_refl. reflexivity. }
  split.
  { intros pstr s Hne. rewrite word_eq.
    apply String.eqb_neq in Hne. rewrite Hne. reflexivity. }
  split; [exact strip_spec|].
  repeat split.
Qed.

Lemma word_prefix_only_witness :
  strip "iffy " = "if" ++ "fy"
  /\ word "if" "iffy " = Ok (VStr "if") "fy".
Proof.
  assert (H : strip "iffy " = "if" ++ "fy") by reflexivity.
  split; [exact H|].
  exact (proj1 (proj2 word_prefix_only) "if" "fy" "iffy " H).
Defined.

(** ** Repetition *)

(** C8, as stated, fails: [moreThan0(fatal("boom"))] does not succeed, the
    fatal signal of [p] leaves it. *)
Lemma moreThan0_of_fatal :
  moreThan0 (fatal "boom") "abc" = Raise (ParserFailure (Some "boom:abc"))
  /\ ~ moreThan0_always_succeeds (fatal "boom") "abc".
Proof.
  split; [reflexivity|].
  intros (l & s' & H). vm_compute in H. discriminate.
Qed.

Lemma word_no_Raise (pstr s : string) (e : error) : word pstr s <> Raise e.
Proof.
  rewrite word_eq.
  destruct (slice_to (String.length pstr) (strip s) =? pstr)%string;
    discriminate.
Qed.

Lemma optional_no_Raise (p : Parser) :
  (forall s e, p s <> Raise e) -> forall s e, optional p s <> Raise e.
Proof.
  intros Hp s e. unfold optional. unfold_body.
  destruct (p s) as [a s'| |e'] eqn:E; try discriminate.
  exfalso. apply (Hp s e'). exact E.
Qed.

Lemma moreThan0_no_Raise (p : Parser) :
  (forall s e, p s <> Raise e) ->
  forall s, exists l s',
    moreThan0 p s = Ok (VList l) s'
    /\ List.length l + String.length s' <= String.length s.
Proof.
  intros Hp s.
  destruct (moreThan0_total p s) as [H|(e & s0 & _ & H)]; [exact H|].
  exfalso. apply (Hp s0 e). exact H.
Qed.

(** C8 (amended): for every parser [p], [moreThan0(p)] terminates on every
    input and never yields no result; it succeeds with a list that has at
    most as many elements as characters were consumed, unless [p] raises a
    fatal signal on a cursor the loop comes to, in which case that signal,
    and nothing else, leaves it.  This holds also when [p] can match the
    empty string, as in [moreThan0(optional(word("x")))], which succeeds on
    every cursor: the guard turns a success of [p] that consumed nothing into
    a failure, which ends the loop. *)
Theorem moreThan0_terminates :
  (forall p s, moreThan0 p s <> NoResult)
  /\ (forall p s e,
         moreThan0 p s = Raise e <-> exists t, reaches p s t /\ p t = Raise e)
  /\ (forall p s,
         (forall t e, reaches p s t -> p t <> Raise e) ->
         exists l s',
           moreThan0 p s = Ok (VList l) s'
           /\ List.length l + String.length s' <= String.length s)
  /\ (forall p s v s',
         moreThan0 p s = Ok v s' ->
         exists l, v = VList l
                   /\ List.length l + String.length s' <= String.length s)
  /\ (forall s, exists l s',
         moreThan0 (optional (word "x")) s = Ok (VList l) s'
         /\ List.length l + String.length s' <= String.length s)
  /\ (forall p s a s',
         p s = Ok a s' -> String.length s <= String.length s' ->
         moreThan0_q p s = NoResult /\ moreThan0 p s = Ok (VList []) s)
  /\ (forall p s a s',
         p s = Ok a s' -> String.length s' < String.length s ->
         moreThan0_q p s = Ok a s')
  /\ (moreThan0 (optional (word "x")) "xxy"
      = Ok (VList [VList [VStr "x"]; VList [VStr "x"]]) "y"
      /\ optional (word "x") "y" = Ok (VList []) "y"
      /\ moreThan0 x_or_fatal "xxy" = Ok (VList [VStr "x"; VStr "x"]) "y"
      /\ moreThan0 x_or_fatal "xx!" = Raise (ParserFailure (Some "boom:"))).
Proof.
  split.
  { intros p s H.
    destruct (moreThan0_total p s) as [(l & s' & Hl & _)|(e & s0 & He & _)];
      rewrite H in *; discriminate. }
  split; [exact moreThan0_Raise_iff|].
  split; [exact moreThan0_Ok_of_no_Raise|].
  split.
  { intros p s v s' H.
    destruct (moreThan0_total p s) as [(l & s2 & Hl & Hlen)|(e & s0 & He & _)];
      rewrite H in *; [|discriminate].
    injection Hl as -> ->. exists l. split; [reflexivity|exact Hlen]. }
  split.
  { intros s. apply moreThan0_Ok_of_no_Raise. intros t e _.
    apply optional_no_Raise. apply word_no_Raise. }
  split.
  { intros p s a s' Hp Hlen. rewrite moreThan0_unfold, moreThan0_q_eq, Hp.
    apply Nat.ltb_ge in Hlen. rewrite Hlen. split; reflexivity. }
  split.
  { intros p s a s' Hp Hlen. rewrite moreThan0_q_eq, Hp.
    apply Nat.ltb_lt in Hlen. rewrite Hlen. reflexivity. }
  repeat split.
Qed.

(** On ["xxy"] the loop of [moreThan0(x_or_fatal)] comes to the cursors
    ["xxy"], ["xy"] and ["y"] only, and [x_or_fatal] raises on none. *)
Lemma x_or_fatal_quiet_on_xxy (t : string) (e : error) :
  reaches x_or_fatal "xxy" t -> x_or_fatal t <> Raise e.
Proof.
  intros H.
  inversion H as [|? b1 s1 ? Hp1 _ _ H1]; subst; [discriminate|].
  vm_compute in Hp1. injection Hp1 as <- <-.
  inversion H1 as [|? b2 s2 ? Hp2 _ _ H2]; subst; [discriminate|].
  vm_compute in Hp2. injection Hp2 as <- <-.
  inversion H2 as [|? b3 s3 ? Hp3 _ _ H3]; subst; [discriminate|].
  vm_compute in Hp3. discriminate.
Qed.

Lemma moreThan0_terminates_witness :
  (forall t e, reaches x_or_fatal "xxy" t -> x_or_fatal t <> Raise e)
  /\ exists l s',
       moreThan0 x_or_fatal "xxy" = Ok (VList l) s'
       /\ List.length l + String.length s' <= String.length "xxy".
Proof.
  assert (H : forall t e, reaches x_or_fatal "xxy" t -> x_or_fatal t <> Raise e)
    by (exact x_or_fatal_quiet_on_xxy).
  split; [exact H|].
  exact (proj1 (proj2 (proj2 moreThan0_terminates)) x_or_fatal "xxy" H).
Defined.

(** C10: [moreThan1(p)] runs [p] once and does not capture its failure: when
    [p] yields no result so does [moreThan1(p)], and the caller reads the
    same cursor afterwards; when [p] matches, its value is put in front of
    the list [moreThan0(p)] returns from the new cursor, which gives a
    non-empty list. *)
Theorem moreThan1_spec :
  (forall p s, p s = NoResult ->
     moreThan1 p s = NoResult
     /\ parser_do (run (moreThan1 p) true false ;; run0 get) s = Ok (VStr s) s)
  /\ (forall p s a s1 l s2,
         p s = Ok a s1 -> moreThan0 p s1 = Ok (VList l) s2 ->
         moreThan1 p s = Ok (VList (a :: l)) s2)
  /\ (forall p s a s1,
         p s = Ok a s1 -> moreThan1 p s = cons_result a (moreThan0 p s1))
  /\ (forall p s v s', moreThan1 p s = Ok v s' ->
         exists a l, v = VList (a :: l))
  /\ (forall s, moreThan1 fail s = NoResult)
  /\ moreThan1 (word "x") "xxy" = Ok (VList [VStr "x"; VStr "x"]) "y".
Proof.
  assert (Hok : forall p s a s1 l s2,
             p s = Ok a s1 -> moreThan0 p s1 = Ok (VList l) s2 ->
             moreThan1 p s = Ok (VList (a :: l)) s2).
  { intros p s a s1 l s2 Hp Hm. unfold moreThan1. unfold_body.
    rewrite Hp, Hm. reflexivity. }
  assert (Hcons : forall p s a s1,
             p s = Ok a s1 -> moreThan1 p s = cons_result a (moreThan0 p s1)).
  { intros p s a s1 Hp.
    destruct (moreThan0_total p s1) as [(l & s2 & Hm & _)|(e & s0 & Hm & _)].
    - rewrite (Hok p s a s1 l s2 Hp Hm), Hm. reflexivity.
    - rewrite Hm. unfold moreThan1. unfold_body. rewrite Hp, Hm. reflexivity. }
  split.
  { intros p s Hp.
    assert (H1 : moreThan1 p s = NoResult).
    { unfold moreThan1. unfold_body. rewrite Hp. reflexivity. }
    split; [exact H1|]. unfold_body. rewrite H1. reflexivity. }
  split; [exact Hok|].
  split; [exact Hcons|].
  split.
  { intros p s v s' H.
    destruct (p s) as [a s1| |e] eqn:Hp.
    - rewrite (Hcons p s a s1 Hp) in H.
      destruct (moreThan0_total p s1) as [(l & s2 & Hm & _)|(e & s0 & Hm & _)];
        rewrite Hm in H; simpl in H; [|discriminate].
      injection H as <- _. exists a, l. reflexivity.
    - unfold moreThan1 in H. unfold_body_in H. rewrite Hp in H. discriminate.
    - unfold moreThan1 in H. unfold_body_in H. rewrite Hp in H. discriminate. }
  split; reflexivity.
Qed.

Lemma moreThan1_spec_witness :
  word "x" "abc" = NoResult
  /\ moreThan1 (word "x") "abc" = NoResult.
Proof.
  assert (H : word "x" "abc" = NoResult) by reflexivity.
  split; [exact H|].
  exact (proj1 (proj1 moreThan1_spec (word "x") "abc" H)).
Defined.

Lemma sepBy_interleaves_witness :
  pattern re_digits "7 ; 8" = Ok (VStr "7") " ; 8"
  /\ (word "," <&> pattern re_digits) " ; 8" = NoResult
  /\ sepBy (pattern re_digits) (word ",") "7 ; 8" = Ok (VList [VStr "7"]) " ; 8".
Proof.
  assert (H1 : pattern re_digits "7 ; 8" = Ok (VStr "7") " ; 8") by reflexivity.
  assert (H2 : (word "," <&> pattern re_digits) " ; 8" = NoResult)
    by reflexivity.
  split; [exact H1|]. split; [exact H2|].
  exact (proj1 (proj2 (proj2 sepBy_interleaves)) _ _ _ _ _ H1 H2).
Defined.

(** * Further properties of the combinators *)

(** ** Laws of sequencing *)

(** X1: [unit] and [bind] obey the monad laws on every cursor: [unit(a)]
    bound to [f] is [f(a)], a parser bound to [unit] is the parser itself,
    and nested binds can be regrouped. *)
Theorem bind_monad_laws :
  (forall a f s, bind (unit a) f s = f a s)
  /\ (forall m s, bind m unit s = m s)
  /\ (forall m f g s,
         bind (bind m f) g s = bind m (fun a => bind (f a) g) s).
Proof.
  split; [|split].
  - intros a f s. unfold bind, unit. unfold_body. destruct (f a s); reflexivity.
  - intros m s. unfold bind, unit. unfold_body. destruct (m s); reflexivity.
  - intros m f g s. unfold bind. unfold_body.
    destruct (m s) as [a s1| |e]; try reflexivity.
    destruct (f a s1) as [b s2| |e]; try reflexivity.
    destruct (g b s2); reflexivity.
Qed.

(** X2: [self > f] is a functorial map: mapping the identity changes
    nothing, two maps in a row are the map of the composed function, and a
    map is a bind into [unit]. *)
Theorem map_functor_laws :
  (forall m s, __gt__ m (fun a => a) s = m s)
  /\ (forall m f g s, __gt__ (__gt__ m f) g s = __gt__ m (fun a => g (f a)) s)
  /\ (forall m f s, __gt__ m f s = bind m (fun a => unit (f a)) s).
Proof.
  split; [|split].
  - intros m s. unfold __gt__. unfold_body. destruct (m s); reflexivity.
  - intros m f g s. unfold __gt__. unfold_body. destruct (m s); reflexivity.
  - intros m f s. unfold __gt__, bind, unit. unfold_body.
    destruct (m s); reflexivity.
Qed.

(** X3: the two discarding sequencers are [self & p] followed by a
    projection of the pair: same outcome, same cursor. *)
Theorem discard_as_projection (self p : Parser) (f0 f1 : value -> value)
  (s : string) :
  (forall x y, f0 (VList [x; y]) = x) ->
  (forall x y, f1 (VList [x; y]) = y) ->
  (self <<< p) s = __gt__ (self <&> p) f0 s
  /\ (self >>> p) s = __gt__ (self <&> p) f1 s.
Proof.
  intros H0 H1. unfold __lshift__, __rshift__, __gt__, __and__. unfold_body.
  destruct (self s) as [a s1| |e]; try (split; reflexivity).
  destruct (p s1) as [b s2| |e]; try (split; reflexivity).
  rewrite H0, H1. split; reflexivity.
Qed.

Lemma discard_as_projection_witness :
  (word "a" <<< word "b") "a b c"
  = __gt__ (word "a" <&> word "b")
      (fun v => match v with VList (x :: _) => x | _ => VNone end) "a b c"
  /\ (word "a" >>> word "b") "a b c"
     = __gt__ (word "a" <&> word "b")
         (fun v => match v with VList [_; y] => y | _ => VNone end) "a b c".
Proof.
  exact (discard_as_projection (word "a") (word "b")
           (fun v => match v with VList (x :: _) => x | _ => VNone end)
           (fun v => match v with VList [_; y] => y | _ => VNone end)
           "a b c" (fun x y => eq_refl) (fun x y => eq_refl)).
Defined.

(** X4: [self & p] can be regrouped: [a & (b & c)] has the outcome of
    [(a & b) & c], with the same cursor and the values [[x, [y, z]]] in place
    of [[[x, y], z]]. *)
Theorem and_regroups (a b c : Parser) (s : string) :
  (a <&> (b <&> c)) s = reassoc (((a <&> b) <&> c) s).
Proof.
  unfold __and__. unfold_body.
  destruct (a s) as [x s1| |e]; try reflexivity.
  destruct (b s1) as [y s2| |e]; try reflexivity.
  destruct (c s2) as [z s3| |e]; reflexivity.
Qed.

(** X5: [fail] is neutral on the left of an alternative; on the right it is
    neutral, and alternatives can be regrouped, as long as the left parser
    does not succeed with the value [None].  With such a parser on the left
    the two groupings differ. *)
Theorem or_laws :
  (forall p s, (fail <|> p) s = p s)
  /\ (forall p s, (forall s', p s <> Ok VNone s') -> (p <|> fail) s = p s)
  /\ (forall a b c s,
         (forall s', a s <> Ok VNone s') ->
         ((a <|> b) <|> c) s = (a <|> (b <|> c)) s)
  /\ (((a_then_None <|> fail) <|> get) "ab" = Ok (VStr "ab") "ab"
      /\ (a_then_None <|> (fail <|> get)) "ab" = Ok (VStr "b") "b").
Proof.
  split; [|split; [|split]].
  - intros p s. unfold __or__. unfold_body. simpl. destruct (p s); reflexivity.
  - intros p s HN. unfold __or__. unfold_body.
    destruct (p s) as [v s'| |e] eqn:E; try reflexivity.
    destruct v; try reflexivity. exfalso. apply (HN s'). reflexivity.
  - intros a b c s HN. unfold __or__. unfold_body.
    destruct (a s) as [v s1| |e] eqn:E; try reflexivity.
    + destruct v; try reflexivity. exfalso. apply (HN s1). reflexivity.
    + simpl. destruct (b s) as [v s1| |e']; try reflexivity.
      * destruct v; simpl; try reflexivity. destruct (c s1); reflexivity.
      * simpl. destruct (c s); reflexivity.
  - split; reflexivity.
Qed.

Lemma or_laws_witness :
  (forall s', word "a" "ca" <> Ok VNone s')
  /\ ((word "a" <|> word "b") <|> word "c") "ca"
     = (word "a" <|> (word "b" <|> word "c")) "ca".
Proof.
  assert (H : forall s', word "a" "ca" <> Ok VNone s')
    by (intros s' E; vm_compute in E; discriminate).
  split; [exact H|].
  exact (proj1 (proj2 (proj2 or_laws)) (word "a") (word "b") (word "c") "ca" H).
Defined.

(** X6: reading the cursor, or returning a fixed value, before or after a
    parser changes nothing but the value that is kept; [put] overwrites the
    cursor, so that a following [get] returns what was put and a second
    [put] wins. *)
Theorem cursor_primitives_laws :
  (forall p s, (get >>> p) s = p s)
  /\ (forall p s, (p <<< get) s = p s)
  /\ (forall a p s, (unit a >>> p) s = p s)
  /\ (forall a p s, (p <<< unit a) s = p s)
  /\ (forall p s, (empty >>> p) s = p s)
  /\ (forall t s, (put t >>> get) s = put t s)
  /\ (forall t u s, (put t >>> put u) s = put u s)
  /\ (forall t p s, (put t >>> p) s = p t).
Proof.
  repeat split; intros;
    unfold __rshift__, __lshift__, unit, empty; unfold_body; simpl;
    try reflexivity;
    match goal with |- context [?p ?s] =>
      match type of p with Parser => destruct (p s); reflexivity end
    end.
Qed.

(** ** Text and whitespace *)

Lemma append_length (a b : string) :
  String.length (a ++ b) = String.length a + String.length b.
Proof. induction a as [|c a IH]; simpl; [|rewrite IH]; reflexivity. Qed.

Lemma append_assoc (a b c : string) : (a ++ b) ++ c = a ++ (b ++ c).
Proof. induction a as [|x a IH]; simpl; [|rewrite IH]; reflexivity. Qed.

Lemma append_nil_r (a : string) : a ++ "" = a.
Proof. induction a as [|x a IH]; simpl; [|rewrite IH]; reflexivity. Qed.

Lemma slice_from_length (n : nat) :
  forall s, String.length (slice_from n s) = String.length s - n.
Proof.
  induction n as [|n IH]; intros [|c s]; simpl; try reflexivity.
  apply IH.
Qed.

Lemma strip_length (s : string) : String.length (strip s) <= String.length s.
Proof.
  destruct (strip_spec s) as (l & r & Hs & _).
  rewrite Hs at 2. rewrite !append_length. lia.
Qed.

Lemma lstrip_all_space (r : string) : all_space r = true -> lstrip r = "".
Proof.
  induction r as [|c r IH]; simpl; [reflexivity|].
  intros H. apply andb_prop in H. destruct H as [Hc Hr].
  rewrite Hc. exact (IH Hr).
Qed.

Lemma rstrip_all_space (r : string) : all_space r = true -> rstrip r = "".
Proof.
  induction r as [|c r IH]; simpl; [reflexivity|].
  intros H. apply andb_prop in H. destruct H as [Hc Hr].
  rewrite (IH Hr), Hc. reflexivity.
Qed.

Lemma lstrip_pad (l t : string) :
  all_space l = true -> lstrip (l ++ t) = lstrip t.
Proof.
  induction l as [|c l IH]; simpl; [reflexivity|].
  intros H. apply andb_prop in H. destruct H as [Hc Hl].
  rewrite Hc. exact (IH Hl).
Qed.

Lemma rstrip_pad (t r : string) :
  all_space r = true -> rstrip (t ++ r) = rstrip t.
Proof.
  intros Hr. induction t as [|c t IH]; simpl.
  - apply rstrip_all_space. exact Hr.
  - rewrite IH. reflexivity.
Qed.

Lemma lstrip_append (s r : string) :
  lstrip (s ++ r) = if all_space s then lstrip r else lstrip s ++ r.
Proof.
  induction s as [|c s IH]; simpl; [reflexivity|].
  destruct (isspace c); simpl; [exact IH|reflexivity].
Qed.

Lemma strip_pad (l s r : string) :
  all_space l = true -> all_space r = true ->
  strip (l ++ s ++ r) = strip s.
Proof.
  intros Hl Hr. unfold strip. rewrite (lstrip_pad l _ Hl), lstrip_append.
  destruct (all_space s) eqn:Hs.
  - rewrite (lstrip_all_space r Hr), (lstrip_all_space s Hs). reflexivity.
  - apply rstrip_pad. exact Hr.
Qed.

Lemma rstrip_fixed (t : string) : last_space t = false -> rstrip t = t.
Proof.
  induction t as [|c t IH]; simpl; [reflexivity|].
  destruct t as [|d u].
  - simpl. intros ->. reflexivity.
  - intros H. rewrite (IH H). reflexivity.
Qed.

Lemma strip_fixed (t : string) :
  head_space t = false -> last_space t = false -> strip t = t.
Proof.
  intros Hh Hl. unfold strip.
  assert (E : lstrip t = t) by (destruct t; simpl in *; [|rewrite Hh]; reflexivity).
  rewrite E. apply rstrip_fixed. exact Hl.
Qed.

Lemma last_space_append (x y : string) :
  y <> "" -> last_space (x ++ y) = last_space y.
Proof.
  intros Hy. induction x as [|c x IH]; simpl; [reflexivity|].
  destruct (x ++ y) eqn:E; [|exact IH].
  destruct x; simpl in E; [contradiction|discriminate].
Qed.

Lemma last_space_slice_from (n : nat) :
  forall t, last_space t = false -> last_space (slice_from n t) = false.
Proof.
  induction n as [|n IH]; intros [|c t] H; simpl; try assumption.
  apply IH. destruct t; [reflexivity|exact H].
Qed.

Lemma pattern_eq (pat : regex) (s : string) :
  pattern pat s =
  match pat (strip s) with
  | None => NoResult
  | Some n => Ok (VStr (slice_to n (strip s))) (slice_from n (strip s))
  end.
Proof.
  unfold pattern. unfold_body. unfold py_strip, ret. simpl.
  destruct (pat (strip s)); reflexivity.
Qed.

Lemma word_Ok_inv (pstr s : string) (v : value) (s' : string) :
  word pstr s = Ok v s' -> v = VStr pstr /\ strip s = pstr ++ s'.
Proof.
  rewrite word_eq.
  destruct (slice_to (String.length pstr) (strip s) =? pstr)%string eqn:E;
    [|discriminate].
  intros H. injection H as <- <-. split; [reflexivity|].
  apply String.eqb_eq in E.
  rewrite <- (slice_to_from (String.length pstr) (strip s)) at 1.
  rewrite E. reflexivity.
Qed.

Lemma word_Ok_of_strip (pstr rest s : string) :
  strip s = pstr ++ rest -> word pstr s = Ok (VStr pstr) rest.
Proof.
  intros Hs. rewrite word_eq, Hs.
  rewrite slice_to_append, slice_from_append, String.eqb_refl. reflexivity.
Qed.

(** X7: [pattern(pat)] yields no result exactly when the compiled pattern
    does not match the stripped cursor, and never raises.  When it succeeds,
    the matched text followed by the new cursor is the stripped cursor, the
    matched text has the length the match reports (cut at the end of the
    text), and the new cursor is not longer than the old one. *)
Theorem pattern_splits_stripped_text (pat : regex) (s : string) :
  (pattern pat s = NoResult <-> pat (strip s) = None)
  /\ (forall e, pattern pat s <> Raise e)
  /\ (forall v s',
         pattern pat s = Ok v s' ->
         exists n w,
           pat (strip s) = Some n /\ v = VStr w
           /\ w ++ s' = strip s
           /\ String.length w = Nat.min n (String.length (strip s))
           /\ String.length s' <= String.length s).
Proof.
  rewrite pattern_eq.
  destruct (pat (strip s)) as [n|] eqn:E.
  - split; [split; discriminate|]. split; [discriminate|].
    intros v s' H. injection H as <- <-.
    exists n, (slice_to n (strip s)).
    repeat split.
    + apply slice_to_from.
    + apply slice_to_length.
    + rewrite slice_from_length. pose proof (strip_length s). lia.
  - split; [split; reflexivity|]. split; discriminate.
Qed.

Lemma pattern_splits_stripped_text_witness :
  pattern re_digits " 42 " = Ok (VStr "42") ""
  /\ exists n w,
       re_digits (strip " 42 ") = Some n /\ VStr "42" = VStr w
       /\ w ++ "" = strip " 42 "
       /\ String.length w = Nat.min n (String.length (strip " 42 "))
       /\ String.length "" <= String.length " 42 ".
Proof.
  assert (H : pattern re_digits " 42 " = Ok (VStr "42") "") by reflexivity.
  split; [exact H|].
  exact (proj2 (proj2 (pattern_splits_stripped_text re_digits " 42 ")) _ _ H).
Defined.

(** X8: when [word(pstr)] succeeds, its value is [pstr], [pstr] followed by
    the new cursor is the stripped cursor, and the cursor got shorter by at
    least the length of [pstr]. *)
Theorem word_consumes_literal (pstr s : string) (v : value) (s' : string) :
  word pstr s = Ok v s' ->
  v = VStr pstr
  /\ pstr ++ s' = strip s
  /\ String.length pstr + String.length s' <= String.length s.
Proof.
  intros H. destruct (word_Ok_inv pstr s v s' H) as [Hv Hs].
  split; [exact Hv|]. split; [symmetry; exact Hs|].
  pose proof (strip_length s) as Hl. rewrite Hs, append_length in Hl. exact Hl.
Qed.

Lemma word_consumes_literal_witness :
  word "if" "  if x" = Ok (VStr "if") " x"
  /\ VStr "if" = VStr "if"
  /\ "if" ++ " x" = strip "  if x"
  /\ String.length "if" + String.length " x" <= String.length "  if x".
Proof.
  assert (H : word "if" "  if x" = Ok (VStr "if") " x") by reflexivity.
  split; [exact H|].
  exact (word_consumes_literal "if" "  if x" (VStr "if") " x" H).
Defined.

(** X9: whitespace around the cursor is not seen by the lexical primitives:
    [word] and [pattern] give the same outcome, with the same new cursor, on
    a cursor and on that cursor between two runs of whitespace. *)
Theorem surrounding_whitespace_ignored (l s r : string) :
  all_space l = true -> all_space r = true ->
  (forall pstr, word pstr (l ++ s ++ r) = word pstr s)
  /\ (forall pat, pattern pat (l ++ s ++ r) = pattern pat s).
Proof.
  intros Hl Hr. split.
  - intros pstr. rewrite !word_eq, (strip_pad l s r Hl Hr). reflexivity.
  - intros pat. rewrite !pattern_eq, (strip_pad l s r Hl Hr). reflexivity.
Qed.

Lemma surrounding_whitespace_ignored_witness :
  all_space "  " = true /\ all_space " " = true
  /\ word "if" ("  " ++ "if x" ++ " ") = word "if" "if x".
Proof.
  assert (Hl : all_space "  " = true) by reflexivity.
  assert (Hr : all_space " " = true) by reflexivity.
  split; [exact Hl|]. split; [exact Hr|].
  exact (proj1 (surrounding_whitespace_ignored "  " "if x" " " Hl Hr) "if").
Defined.

(** X10: the cursor a lexical primitive leaves never ends with whitespace:
    the trailing whitespace of the input is dropped by the first [word] or
    [pattern] that succeeds. *)
Theorem leftover_has_no_trailing_space (s : string) (v : value) (s' : string) :
  (forall pstr, word pstr s = Ok v s' -> last_space s' = false)
  /\ (forall pat, pattern pat s = Ok v s' -> last_space s' = false).
Proof.
  destruct (strip_spec s) as (l & r & _ & _ & _ & _ & Hlast).
  split.
  - intros pstr. rewrite word_eq.
    destruct (slice_to (String.length pstr) (strip s) =? pstr)%string;
      [|discriminate].
    intros H. injection H as _ <-. apply last_space_slice_from. exact Hlast.
  - intros pat. rewrite pattern_eq.
    destruct (pat (strip s)) as [n|]; [|discriminate].
    intros H. injection H as _ <-. apply last_space_slice_from. exact Hlast.
Qed.

Lemma leftover_has_no_trailing_space_witness :
  word "if" "if x  " = Ok (VStr "if") " x" /\ last_space " x" = false.
Proof.
  assert (H : word "if" "if x  " = Ok (VStr "if") " x") by reflexivity.
  split; [exact H|].
  exact (proj1 (leftover_has_no_trailing_space "if x  " (VStr "if") " x")
           "if" H).
Defined.

(** X11: a word that is the concatenation of [a] and a non-empty [b] that
    does not begin with whitespace can be read in two steps: where
    [word(a + b)] succeeds, [word(a) & word(b)] succeeds with the same new
    cursor. *)
Theorem word_of_concatenation (a b s : string) (v : value) (s' : string) :
  b <> "" -> head_space b = false ->
  word (a ++ b) s = Ok v s' ->
  (word a <&> word b) s = Ok (VList [VStr a; VStr b]) s'.
Proof.
  intros Hb Hh H.
  destruct (word_Ok_inv (a ++ b) s v s' H) as [_ Hs].
  rewrite append_assoc in Hs.
  assert (Hne : b ++ s' <> "") by (destruct b; [contradiction|discriminate]).
  apply (and_Ok (word a) (word b) s (VStr a) (b ++ s') (VStr b) s').
  - apply word_Ok_of_strip. exact Hs.
  - apply word_Ok_of_strip. apply strip_fixed.
    + destruct b; [contradiction|exact Hh].
    + rewrite <- (last_space_append a (b ++ s') Hne), <- Hs.
      destruct (strip_spec s) as (l & r & _ & _ & _ & _ & Hlast). exact Hlast.
Qed.

Lemma word_of_concatenation_witness :
  "fy" <> "" /\ head_space "fy" = false
  /\ word ("if" ++ "fy") " iffy!" = Ok (VStr "iffy") "!"
  /\ (word "if" <&> word "fy") " iffy!" = Ok (VList [VStr "if"; VStr "fy"]) "!".
Proof.
  assert (Hb : "fy" <> "") by discriminate.
  assert (Hh : head_space "fy" = false) by reflexivity.
  assert (H : word ("if" ++ "fy") " iffy!" = Ok (VStr "iffy") "!")
    by reflexivity.
  split; [exact Hb|]. split; [exact Hh|]. split; [exact H|].
  exact (word_of_concatenation "if" "fy" " iffy!" (VStr "iffy") "!" Hb Hh H).
Defined.

(** ** Failure policies and derived combinators *)

(** X12: under the throwable policy a parser that yields no result raises
    [ParserFailure] without a message, which no alternative and no
    [optional] around the body recovers from; when both flags are set, the
    nullable policy wins and [None] is returned with the holder unchanged. *)
Theorem throwable_turns_failure_fatal (m : Parser) (s : string) :
  m s = NoResult ->
  run m false true s = Throw (ParserFailure None)
  /\ run m true true s = Ret VNone s
  /\ (forall p,
         (parser_do (run m false true) <|> p) s = Raise (ParserFailure None))
  /\ optional (parser_do (run m false true)) s = Raise (ParserFailure None).
Proof.
  intros Hm. unfold optional, __or__. unfold_body. rewrite Hm.
  repeat split.
Qed.

Lemma throwable_turns_failure_fatal_witness :
  word "x" "abc" = NoResult
  /\ (parser_do (run (word "x") false true) <|> word "a") "abc"
     = Raise (ParserFailure None).
Proof.
  assert (H : word "x" "abc" = NoResult) by reflexivity.
  split; [exact H|].
  exact (proj1 (proj2 (proj2 (throwable_turns_failure_fatal (word "x") "abc" H)))
           (word "a")).
Defined.

Lemma word_not_None (pstr s s' : string) : word pstr s <> Ok VNone s'.
Proof.
  rewrite word_eq.
  destruct (slice_to (String.length pstr) (strip s) =? pstr)%string;
    discriminate.
Qed.

Lemma moreThan0_maximal_aux (p : Parser) :
  (forall s s', p s <> Ok VNone s') ->
  forall n s l s', String.length s < n ->
    moreThan0 p s = Ok (VList l) s' ->
    moreThan0_q p s' = NoResult /\ moreThan0 p s' = Ok (VList []) s'.
Proof.
  intros HN. induction n as [|n IH]; intros s l s' Hn; [lia|].
  rewrite (moreThan0_unfold p s).
  destruct (p s) as [b s1| |e] eqn:Hp; try discriminate.
  - destruct (String.length s1 <? String.length s)%nat eqn:E.
    + apply Nat.ltb_lt in E.
      destruct b; try (exfalso; apply (HN s s1); exact Hp); simpl;
        destruct (moreThan0 p s1) as [[] ?| |] eqn:Hm; simpl; try discriminate;
        intros H; injection H as _ <-;
        apply (IH s1 _ _ ltac:(lia) Hm).
    + intros H. injection H as _ <-.
      rewrite moreThan0_unfold, moreThan0_q_eq, Hp, E. split; reflexivity.
  - intros H. injection H as _ <-.
    rewrite moreThan0_unfold, moreThan0_q_eq, Hp. split; reflexivity.
Qed.

(** X13: [moreThan0(p)] runs [p] as long as possible: for a parser [p] that
    never succeeds with the value [None], the guarded [p] yields no result
    at the cursor [moreThan0(p)] leaves, and a second [moreThan0(p)] there
    returns the empty list without moving. *)
Theorem moreThan0_runs_as_long_as_possible (p : Parser) (s : string)
  (l : list value) (s' : string) :
  (forall t t', p t <> Ok VNone t') ->
  moreThan0 p s = Ok (VList l) s' ->
  moreThan0_q p s' = NoResult /\ moreThan0 p s' = Ok (VList []) s'.
Proof.
  intros HN H.
  apply (moreThan0_maximal_aux p HN (S (String.length s)) s l s'); [lia|exact H].
Qed.

Lemma moreThan0_runs_as_long_as_possible_witness :
  (forall t t', word "x" t <> Ok VNone t')
  /\ moreThan0 (word "x") "x x y" = Ok (VList [VStr "x"; VStr "x"]) " y"
  /\ moreThan0_q (word "x") " y" = NoResult
  /\ moreThan0 (word "x") " y" = Ok (VList []) " y".
Proof.
  assert (HN : forall t t', word "x" t <> Ok VNone t')
    by (exact (word_not_None "x")).
  assert (H : moreThan0 (word "x") "x x y"
              = Ok (VList [VStr "x"; VStr "x"]) " y") by reflexivity.
  split; [exact HN|]. split; [exact H|].
  exact (moreThan0_runs_as_long_as_possible (word "x") "x x y" _ " y" HN H).
Defined.

Lemma moreThan0_elements_aux (p : Parser) :
  forall n s l s', String.length s < n ->
    moreThan0 p s = Ok (VList l) s' ->
    Forall (fun b => b <> VNone
                     /\ exists t t', p t = Ok b t'
                                     /\ String.length t' < String.length t) l.
Proof.
  induction n as [|n IH]; intros s l s' Hn; [lia|].
  rewrite moreThan0_unfold.
  destruct (p s) as [b s1| |e] eqn:Hp; try discriminate.
  - destruct (String.length s1 <? String.length s)%nat eqn:E.
    + apply Nat.ltb_lt in E. destruct (is_None b) eqn:Hb.
      * intros H. injection H as <- _. constructor.
      * destruct (moreThan0 p s1) as [[] ?| |] eqn:Hm; simpl; try discriminate.
        intros H. injection H as <- _. constructor.
        -- split; [intros ->; discriminate|]. exists s, s1. split; assumption.
        -- apply (IH s1 _ _ ltac:(lia) Hm).
    + intros H. injection H as <- _. constructor.
  - intros H. injection H as <- _. constructor.
Qed.

(** X14: every element of the list [moreThan0(p)] returns is a value that
    [p] returned on some cursor while making it shorter, and none of them is
    [None]. *)
Theorem moreThan0_elements (p : Parser) (s : string) (l : list value)
  (s' : string) :
  moreThan0 p s = Ok (VList l) s' ->
  Forall (fun b => b <> VNone
                   /\ exists t t', p t = Ok b t'
                                   /\ String.length t' < String.length t) l.
Proof.
  apply (moreThan0_elements_aux p (S (String.length s))). lia.
Qed.

Lemma moreThan0_elements_witness :
  moreThan0 (word "x") "xxy" = Ok (VList [VStr "x"; VStr "x"]) "y"
  /\ Forall (fun b => b <> VNone
                      /\ exists t t', word "x" t = Ok b t'
                                      /\ String.length t' < String.length t)
       [VStr "x"; VStr "x"].
Proof.
  assert (H : moreThan0 (word "x") "xxy" = Ok (VList [VStr "x"; VStr "x"]) "y")
    by reflexivity.
  split; [exact H|].
  exact (moreThan0_elements (word "x") "xxy" _ "y" H).
Defined.

Lemma interleave_length (pairs : list (value * value)) :
  List.length (interleave pairs) = 2 * List.length pairs.
Proof.
  unfold interleave.
  induction pairs as [|xy pairs IH]; simpl; [reflexivity|].
  rewrite IH. lia.
Qed.

Lemma sep_turns_of_moreThan0 (p sep : Parser) :
  forall n s pairs s', String.length s < n ->
    moreThan0 (sep <&> p) s = Ok (VList (map pair_value pairs)) s' ->
    sep_turns p sep s pairs s'.
Proof.
  induction n as [|n IH]; intros s pairs s' Hn; [lia|].
  rewrite moreThan0_unfold.
  destruct ((sep <&> p) s) as [b t2| |e] eqn:Hb; try discriminate.
  - destruct (and_Ok_inv sep p s b t2 Hb) as (x & y & t1 & Hx & Hy & ->).
    destruct (String.length t2 <? String.length s)%nat eqn:E.
    + apply Nat.ltb_lt in E. simpl.
      destruct (moreThan0 (sep <&> p) t2) as [[] ?| |] eqn:Hm; simpl;
        try discriminate.
      intros H. injection H as Hl <-.
      destruct pairs as [|[x' y'] pairs]; [discriminate|].
      simpl in Hl. injection Hl as -> -> ->.
      apply (sep_turns_step p sep s x' t1 y' t2 pairs _ Hx Hy E).
      apply (IH t2 pairs _ ltac:(lia) Hm).
    + intros H. injection H as Hl <-.
      destruct pairs; [|discriminate].
      apply sep_turns_stop. rewrite moreThan0_q_eq, Hb, E. reflexivity.
  - intros H. injection H as Hl <-.
    destruct pairs; [|discriminate].
    apply sep_turns_stop. rewrite moreThan0_q_eq, Hb. reflexivity.
Qed.

(** X15: a list returned by [sepBy] is a value of [p] followed by pairs, each
    a value of the separator and the value of [p] on the cursor the
    separator left; it has an odd number of elements.  The cursor returned
    is one where the guarded [sep & p] yields no result: a separator that is
    not followed by a match of [p] is not part of the list and is not
    consumed. *)
Theorem sepBy_odd_length (p sep : Parser) (s : string) (v : value)
  (s' : string) :
  sepBy p sep s = Ok v s' ->
  exists a s1 pairs,
    p s = Ok a s1
    /\ sep_turns p sep s1 pairs s'
    /\ v = VList (a :: interleave pairs)
    /\ Nat.odd (List.length (a :: interleave pairs)) = true
    /\ moreThan0_q (sep <&> p) s' = NoResult
    /\ (forall x t1 y t2,
           sep s' = Ok x t1 -> p t1 = Ok y t2 ->
           String.length s' <= String.length t2).
Proof.
  intros H. destruct (p s) as [a s1| |e] eqn:Hp.
  - destruct (moreThan0_and_pairs sep p s1) as [(pairs & s2 & Hm)|(e & Hm)].
    + rewrite (sepBy_Ok p sep s a s1 pairs s2 Hp Hm) in H.
      injection H as <- <-. exists a, s1, pairs.
      assert (Ht : sep_turns p sep s1 pairs s2)
        by (apply (sep_turns_of_moreThan0 p sep (S (String.length s1)));
            [lia|exact Hm]).
      split; [reflexivity|]. split; [exact Ht|]. split; [reflexivity|].
      split.
      { simpl. rewrite interleave_length.
        change (S (2 * List.length pairs)) with (1 + 2 * List.length pairs).
        rewrite Nat.odd_add_mul_2. reflexivity. }
      assert (Hq : moreThan0_q (sep <&> p) s2 = NoResult)
        by (clear -Ht; induction Ht; assumption).
      split; [exact Hq|].
      intros x t1 y t2 Hx Hy.
      rewrite moreThan0_q_eq, (and_Ok sep p s2 x t1 y t2 Hx Hy) in Hq.
      destruct (String.length t2 <? String.length s2)%nat eqn:E;
        [discriminate|].
      apply Nat.ltb_ge. exact E.
    + rewrite (sepBy_Raise p sep s a s1 e Hp Hm) in H. discriminate.
  - unfold sepBy in H. unfold_body_in H. rewrite Hp in H. discriminate.
  - unfold sepBy in H. unfold_body_in H. rewrite Hp in H. discriminate.
Qed.

Lemma sepBy_odd_length_witness :
  sepBy (pattern re_digits) (word ",") "1,2,"
  = Ok (VList [VStr "1"; VStr ","; VStr "2"]) ","
  /\ exists a s1 pairs,
       pattern re_digits "1,2," = Ok a s1
       /\ sep_turns (pattern re_digits) (word ",") s1 pairs ","
       /\ VList [VStr "1"; VStr ","; VStr "2"] = VList (a :: interleave pairs)
       /\ Nat.odd (List.length (a :: interleave pairs)) = true
       /\ moreThan0_q (word "," <&> pattern re_digits) "," = NoResult
       /\ (forall x t1 y t2,
              word "," "," = Ok x t1 -> pattern re_digits t1 = Ok y t2 ->
              String.length "," <= String.length t2).
Proof.
  assert (H : sepBy (pattern re_digits) (word ",") "1,2,"
              = Ok (VList [VStr "1"; VStr ","; VStr "2"]) ",") by reflexivity.
  split; [exact H|].
  exact (sepBy_odd_length (pattern re_digits) (word ",") "1,2," _ "," H).
Defined.

Lemma moreThan1_cons (p : Parser) (s : string) (a : value) (s1 : string) :
  p s = Ok a s1 -> moreThan1 p s = cons_result a (moreThan0 p s1).
Proof.
  intros Hp. unfold moreThan1. unfold_body. rewrite Hp.
  destruct (moreThan0_total p s1) as [(l & s2 & Hm & _)|(e & s0 & Hm & _)];
    rewrite Hm; reflexivity.
Qed.

(** X16: zero-or-more is one-or-more or nothing: on a cursor where [p], if
    it succeeds, consumes input and does not return [None], [moreThan0(p)]
    has the outcome of [moreThan1(p) | unit([])]. *)
Theorem moreThan0_as_alternative (p : Parser) (s : string) :
  (forall a s', p s = Ok a s' ->
                a <> VNone /\ String.length s' < String.length s) ->
  moreThan0 p s = (moreThan1 p <|> unit (VList [])) s.
Proof.
  intros Hp. rewrite moreThan0_unfold. unfold __or__, unit. unfold_body.
  destruct (p s) as [a s1| |e] eqn:E.
  - destruct (Hp a s1 eq_refl) as [Ha Hlen].
    apply Nat.ltb_lt in Hlen. rewrite Hlen.
    rewrite (moreThan1_cons p s a s1 E).
    destruct a; try (exfalso; apply Ha; reflexivity); simpl;
      destruct (moreThan0_total p s1) as [(? & ? & Hm & _)|(? & ? & Hm & _)];
      rewrite Hm; reflexivity.
  - assert (H1 : moreThan1 p s = NoResult)
      by (unfold moreThan1; unfold_body; rewrite E; reflexivity).
    rewrite H1. reflexivity.
  - assert (H1 : moreThan1 p s = Raise e)
      by (unfold moreThan1; unfold_body; rewrite E; reflexivity).
    rewrite H1. reflexivity.
Qed.

Lemma moreThan0_as_alternative_witness :
  (forall a s', word "x" "xxy" = Ok a s' ->
                a <> VNone /\ String.length s' < String.length "xxy")
  /\ moreThan0 (word "x") "xxy" = (moreThan1 (word "x") <|> unit (VList [])) "xxy".
Proof.
  assert (H : forall a s', word "x" "xxy" = Ok a s' ->
                a <> VNone /\ String.length s' < String.length "xxy").
  { intros a s' E. vm_compute in E. injection E as <- <-.
    split; [discriminate|simpl; lia]. }
  split; [exact H|].
  exact (moreThan0_as_alternative (word "x") "xxy" H).
Defined.

(** X17: [optional(p)] is the alternative between [p] mapped to a
    one-element list and the empty list, on every cursor where [p] does not
    succeed with the value [None]. *)
Theorem optional_as_alternative (p : Parser) (s : string) :
  (forall s', p s <> Ok VNone s') ->
  optional p s = (__gt__ p (fun a => VList [a]) <|> unit (VList [])) s.
Proof.
  intros HN. unfold optional, __or__, __gt__, unit. unfold_body.
  destruct (p s) as [a s'| |e] eqn:E; try reflexivity.
  destruct a; try reflexivity. exfalso. apply (HN s'). reflexivity.
Qed.

Lemma optional_as_alternative_witness :
  (forall s', word "x" "y" <> Ok VNone s')
  /\ optional (word "x") "y"
     = (__gt__ (word "x") (fun a => VList [a]) <|> unit (VList [])) "y".
Proof.
  assert (H : forall s', word "x" "y" <> Ok VNone s')
    by (exact (word_not_None "x" "y")).
  split; [exact H|].
  exact (optional_as_alternative (word "x") "y" H).
Defined.

(** X18: [fatal] after a prefix commits an alternative: once [self] has
    matched, [(self >> fatal(msg)) | p] raises, with the snippet taken from
    the cursor [self] left, and [p] is not tried; when [self] yields no
    result, the outcome is that of [p]. *)
Theorem fatal_commits_alternative (self p : Parser) (msg s : string) :
  ((self >>> fatal msg) <|> p) s =
  match self s with
  | Ok _ s1 => Raise (ParserFailure (Some (msg ++ ":" ++ slice_to 16 s1)))
  | NoResult => p s
  | Raise e => Raise e
  end.
Proof.
  unfold __or__, __rshift__, fatal. unfold_body.
  destruct (self s) as [a s1| |e]; try reflexivity.
  simpl. destruct (p s); reflexivity.
Qed.

(** X19: looking ahead does not disturb what follows: on a cursor where [p]
    does not succeed with the value [None], [peek(p) >> p] has the outcome
    of [p], and a second [peek(p)] answers as the first. *)
Theorem peek_then_parse (p : Parser) (s : string) :
  (forall s', p s <> Ok VNone s') ->
  (peek p >>> p) s = p s
  /\ (peek p >>> peek p) s = peek p s.
Proof.
  intros HN. unfold __rshift__, peek. unfold_body.
  destruct (p s) as [a s'| |e] eqn:E; simpl; try rewrite E;
    try (split; reflexivity).
  destruct a; simpl; try rewrite E; try (split; reflexivity).
  exfalso. apply (HN s'). reflexivity.
Qed.

Lemma peek_then_parse_witness :
  (forall s', word "if" "if x" <> Ok VNone s')
  /\ (peek (word "if") >>> word "if") "if x" = word "if" "if x".
Proof.
  assert (H : forall s', word "if" "if x" <> Ok VNone s')
    by (exact (word_not_None "if" "if x")).
  split; [exact H|].
  exact (proj1 (peek_then_parse (word "if") "if x" H)).
Defined.
